(** * english-time-tenses: the tense table renderer

    A shallow embedding of [src/app.js] (voice chosen with a checkbox) and of
    its sibling variant [src/unnamed/part_000] (voice chosen with two
    buttons), and the properties of the specification proved about them.

    Modelling conventions.
    - JavaScript strings are [string]s holding the UTF-8 bytes of the text.
      Every character the code inspects is ASCII, and an ASCII byte never
      occurs inside a multi-byte UTF-8 sequence, so replacing characters on
      the bytes is replacing them on the text.
    - The DOM is a tree of [Node]s: elements with their class and children,
      and text.  Where the code assigns [innerHTML], the children are what
      [parseMarkup] reads from the markup; it covers the HTML the code
      writes: elements with a class attribute, text, and the character
      references that [escapeHtml] emits; as the HTML parser does, it reads
      a line break CR or CR LF as LF and drops U+0000 from text.
    - The dataset is the document of section 3 of the specification.  A field
      that the code reads behind a truthiness guard is optional ([option]).
    - The object that [indexByType] fills is a [JsObject]: its own
      properties and its prototype, since an assignment to the key
      [__proto__] sets the prototype and a read also finds inherited keys.
      The objects of the dataset are read at the keys the program uses
      (the two voice keys, the four column names), which none of them
      inherits; they are finite maps of their own keys.
    - The page is an explicit state ([Page]) threaded through [init], the
      settling of the fetch promise and the listeners. *)

From Stdlib Require Import Ascii.
From stdpp Require Import base strings gmap list pretty.

(** stdpp never unfolds string concatenation; here the markup is built from
    literals, and [simpl] should compute it. *)
#[local] Arguments String.append !_ _ / : simpl nomatch.

(** ** Strings and HTML text *)

Module Html.

(** The double quote character, U+0022. *)
Definition dq : ascii := "034"%char.

(** A one-character string. *)
Definition chr (c : ascii) : string := String c "".

(** U+0000, carriage return U+000D and line feed U+000A. *)
Definition NUL : ascii := "000"%char.
Definition CR : ascii := "013"%char.
Definition LF : ascii := "010"%char.

(** [str.replace(/c/g, by)] for a one-character pattern [c]. *)
Fixpoint replaceAll (c : ascii) (by_ : string) (str : string) : string :=
  match str with
  | "" => ""
  | String a rest =>
      if Ascii.eqb a c then by_ +:+ replaceAll c by_ rest
      else String a (replaceAll c by_ rest)
  end.

(** [escapeHtml(str)], app.js:181-188 and part_000:191-198.  [String(str)]
    is the identity on a string. *)
Definition escapeHtml (str : string) : string :=
  replaceAll "'" "&#039;"
    (replaceAll dq "&quot;"
      (replaceAll ">" "&gt;"
        (replaceAll "<" "&lt;"
          (replaceAll "&" "&amp;" str)))).

(** The entity of one character, as the five replacements name them:
    the specification's reading of [escapeHtml], character by character. *)
Definition entityOf (c : ascii) : string :=
  if Ascii.eqb c "&" then "&amp;"
  else if Ascii.eqb c "<" then "&lt;"
  else if Ascii.eqb c ">" then "&gt;"
  else if Ascii.eqb c dq then "&quot;"
  else if Ascii.eqb c "'" then "&#039;"
  else chr c.

Fixpoint escapeEach (str : string) : string :=
  match str with
  | "" => ""
  | String a rest => entityOf a +:+ escapeEach rest
  end.

(** The characters that are special in HTML markup. *)
Definition htmlSpecial (c : ascii) : bool :=
  Ascii.eqb c "&" || Ascii.eqb c "<" || Ascii.eqb c ">"
  || Ascii.eqb c dq || Ascii.eqb c "'".

(** [occurs c s]: the character [c] occurs in [s]. *)
Fixpoint occurs (c : ascii) (s : string) : bool :=
  match s with
  | "" => false
  | String a rest => Ascii.eqb a c || occurs c rest
  end.

(** A string without U+0000 and without carriage return: text that the
    HTML parser reads as it is. *)
Definition plainText (s : string) : bool :=
  negb (occurs NUL s) && negb (occurs CR s).

End Html.

Import Html.

(** ** The dataset (specification, section 3) *)

(** A sentence pattern: [{ "type": ..., "formula": ... }]. *)
Record Structure := { type : string; formula : option string }.

(** One aspect of a tense.  [structures] maps a voice key to its list of
    patterns. *)
Record Aspect := {
  name : string;
  description : option string;
  markers : option (list string);
  structures : option (gmap string (list Structure));
}.

Record Tense := { time : string; aspects : list Aspect }.

Record Dataset := { tenses : list Tense }.

(** JavaScript truthiness of an optional string: absent and [''] are falsy. *)
Definition truthy (v : option string) : bool :=
  match v with
  | Some (String _ _) => true
  | _ => false
  end.

(** ** The DOM *)

#[warnings="-register-all"]
Inductive Node :=
| Element (tagName className : string) (childNodes : list Node)
| Text (data : string).

(** The children an element has after [el.textContent = s]: one text node,
    none for the empty string. *)
Definition setTextContent (s : string) : list Node :=
  match s with
  | "" => []
  | _ => [Text s]
  end.

(** [node.textContent], read. *)
Fixpoint textContent (n : Node) : string :=
  match n with
  | Element _ _ cs =>
      (fix all (l : list Node) : string :=
         match l with
         | [] => ""
         | c :: l' => textContent c +:+ all l'
         end) cs
  | Text s => s
  end.

(** *** Reading markup

    The scan of a piece of markup, one character at a time.  [children] are
    the nodes read so far inside the innermost element that is still open,
    [stack] holds the open elements around it, innermost first.  The scan
    covers the markup the code writes: start tags with attributes in double
    quotes (the class is kept), end tags, text, and the references [&amp;],
    [&lt;], [&gt;], [&quot;] and [&#039;].  As in the HTML parser, the
    line breaks of the input are normalised first (CR LF and CR become LF)
    and U+0000 in text is dropped. *)

(** The normalisation of line breaks that precedes the scan: every pair
    CR LF and every other CR becomes one LF. *)
Fixpoint normalizeNewlines (html : string) : string :=
  match html with
  | "" => ""
  | String c rest =>
      if Ascii.eqb c CR then
        String LF
          match rest with
          | "" => ""
          | String c' rest' =>
              if Ascii.eqb c' LF then normalizeNewlines rest'
              else normalizeNewlines rest
          end
      else String c (normalizeNewlines rest)
  end.

(** An element whose start tag has been read and whose end tag has not,
    with the siblings read before it. *)
Record OpenElement := {
  openTag : string;
  openClass : string;
  openBefore : list Node;
}.

(** Where the scan is: in text (with the text read since the last tag), in
    the name of a start or end tag, between the attributes of a start tag,
    in the name of an attribute, or in the quoted value of an attribute. *)
Inductive Mode :=
| Data (text : string)
| TagName (closing : bool) (name : string)
| Attrs (name cls : string)
| AttrName (name cls attr : string)
| AttrValue (name cls attr value : string).

(** The pending text becomes a text node. *)
Definition flush (text : string) (children : list Node) : list Node :=
  match text with
  | "" => children
  | _ => children ++ [Text text]
  end.

Definition closeElement (o : OpenElement) (children : list Node) : list Node :=
  openBefore o ++ [Element (openTag o) (openClass o) children].

(** At the end of the markup the elements still open are closed. *)
Fixpoint closeAll (children : list Node) (stack : list OpenElement) : list Node :=
  match stack with
  | [] => children
  | o :: stack' => closeAll (closeElement o children) stack'
  end.

Definition openElement (name cls : string) (children : list Node)
    (stack : list OpenElement) : list OpenElement :=
  {| openTag := name; openClass := cls; openBefore := children |} :: stack.

Fixpoint scan (mode : Mode) (children : list Node) (stack : list OpenElement)
    (html : string) {struct html} : list Node :=
  match html with
  | "" =>
      match mode with
      | Data text => closeAll (flush text children) stack
      | _ => closeAll children stack
      end
  | String c rest =>
      match mode with
      | Data text =>
          if Ascii.eqb c "<" then
            scan (TagName false "") (flush text children) stack rest
          else if Ascii.eqb c NUL then scan (Data text) children stack rest
          else
            match html with
            | String "&" (String "a" (String "m" (String "p" (String ";" r)))) =>
                scan (Data (text +:+ "&")) children stack r
            | String "&" (String "l" (String "t" (String ";" r))) =>
                scan (Data (text +:+ "<")) children stack r
            | String "&" (String "g" (String "t" (String ";" r))) =>
                scan (Data (text +:+ ">")) children stack r
            | String "&" (String "q" (String "u" (String "o" (String "t"
                (String ";" r))))) =>
                scan (Data (text +:+ chr dq)) children stack r
            | String "&" (String "#" (String "0" (String "3" (String "9"
                (String ";" r))))) =>
                scan (Data (text +:+ "'")) children stack r
            | _ => scan (Data (text +:+ chr c)) children stack rest
            end
      | TagName closing name =>
          if Ascii.eqb c ">" then
            if closing then
              match stack with
              | [] => scan (Data "") children [] rest
              | o :: stack' => scan (Data "") (closeElement o children) stack' rest
              end
            else scan (Data "") [] (openElement name "" children stack) rest
          else if Ascii.eqb c "/" then
            scan (TagName (if name is "" then true else closing) name)
              children stack rest
          else if Ascii.eqb c " " then
            (if closing then scan (TagName closing name) children stack rest
             else scan (Attrs name "") children stack rest)
          else scan (TagName closing (name +:+ chr c)) children stack rest
      | Attrs name cls =>
          if Ascii.eqb c ">" then
            scan (Data "") [] (openElement name cls children stack) rest
          else if Ascii.eqb c " " then scan (Attrs name cls) children stack rest
          else scan (AttrName name cls (chr c)) children stack rest
      | AttrName name cls attr =>
          if Ascii.eqb c dq then
            scan (AttrValue name cls attr "") children stack rest
          else if Ascii.eqb c ">" then
            scan (Data "") [] (openElement name cls children stack) rest
          else if Ascii.eqb c " " then scan (Attrs name cls) children stack rest
          else scan (AttrName name cls (attr +:+ chr c)) children stack rest
      | AttrValue name cls attr value =>
          if Ascii.eqb c dq then
            scan (Attrs name (if decide (attr = "class=") then value else cls))
              children stack rest
          else scan (AttrValue name cls attr (value +:+ chr c)) children stack rest
      end
  end.

(** The nodes that a piece of markup stands for. *)
Definition parseMarkup (html : string) : list Node :=
  scan (Data "") [] [] (normalizeNewlines html).

(** The children an element has after [el.innerHTML = html]. *)
Definition setInnerHTML (html : string) : list Node := parseMarkup html.

(** [classList.toggle(token, force)] on a token list. *)
Definition classList_toggle (token : string) (force : bool)
    (classList : list string) : list string :=
  if force then
    (if decide (token ∈ classList) then classList else classList ++ [token])
  else filter (λ t, t ≠ token) classList.

(** ** Rendering (app.js:67-179, part_000:67-189) *)

(** The glyph of an empty place, U+2014. *)
Definition DASH : string := "—".

(** [<span class="muted">—</span>], as an element and as markup. *)
Definition mutedSpan : Node := Element "span" "muted" (setTextContent DASH).

Definition mutedMarkup : string :=
  "<span class=" +:+ chr dq +:+ "muted" +:+ chr dq +:+ ">" +:+ DASH +:+ "</span>".

Definition columnOrder : list string :=
  ["Simple"; "Continuous"; "Perfect"; "Perfect Continuous"].

(** *** The object that indexes the structures

    [indexByType] fills a plain object [{}].  Such an object has its own
    properties and a prototype, [Object.prototype] unless an assignment to
    the key [__proto__] has replaced it by the assigned structure. *)
Record JsObject := {
  ownProperties : gmap string Structure;
  prototype : option Structure;       (* None is Object.prototype *)
}.

(** What a read of a property may find. *)
Inductive JsValue :=
| VStructure (s : Structure)          (* a structure of the dataset *)
| VString (str : string)              (* a string field of the prototype *)
| VBuiltin (key : string)             (* a member of Object.prototype *)
| VObjectPrototype.                   (* Object.prototype itself *)

(** [{}]. *)
Definition emptyObject : JsObject := {| ownProperties := ∅; prototype := None |}.

(** The keys of [Object.prototype]. *)
Definition objectPrototypeKeys : list string :=
  ["constructor"; "__defineGetter__"; "__defineSetter__"; "hasOwnProperty";
   "__lookupGetter__"; "__lookupSetter__"; "isPrototypeOf";
   "propertyIsEnumerable"; "toString"; "valueOf"; "__proto__";
   "toLocaleString"].

(** [o[key] = s] for a structure [s]: the key [__proto__] is the setter of
    the prototype, any other key is an own property. *)
Definition setProperty (o : JsObject) (key : string) (s : Structure) : JsObject :=
  if decide (key = "__proto__") then
    {| ownProperties := ownProperties o; prototype := Some s |}
  else
    {| ownProperties := <[key := s]> (ownProperties o); prototype := prototype o |}.

(** A read of [key] on [Object.prototype]. *)
Definition inheritedFromObject (key : string) : option JsValue :=
  if decide (key ∈ objectPrototypeKeys) then Some (VBuiltin key) else None.

(** [o[key]]: an own property, else the getter [__proto__], else a field
    of the structure that is the prototype, else a member of
    [Object.prototype]; [None] is [undefined]. *)
Definition getProperty (o : JsObject) (key : string) : option JsValue :=
  match ownProperties o !! key with
  | Some s => Some (VStructure s)
  | None =>
      if decide (key = "__proto__") then
        Some (match prototype o with
              | Some s => VStructure s
              | None => VObjectPrototype
              end)
      else
        match prototype o with
        | Some s =>
            if decide (key = "type") then Some (VString (type s))
            else if decide (key = "formula") then
              match formula s with
              | Some f => Some (VString f)
              | None => inheritedFromObject key
              end
            else inheritedFromObject key
        | None => inheritedFromObject key
        end
  end.

(** The value read, as the [entry] of [renderFormula]: a structure is the
    entry; any other value has no [formula] and renders as no entry does. *)
Definition asEntry (v : option JsValue) : option Structure :=
  match v with
  | Some (VStructure s) => Some s
  | _ => None
  end.

(** [indexByType(structures)]: the loop [map[s.type] = s]. *)
Definition indexByType (structures : list Structure) : JsObject :=
  foldl (λ map s, setProperty map (type s) s) emptyObject structures.

(** [renderFormula(entry, type)] returns markup. *)
Definition renderFormula (entry : option Structure) (type : string) : string :=
  match entry with
  | None => mutedMarkup
  | Some e =>
      if truthy (formula e) then
        let typeClass :=
          if truthy (Some type) then " formula--" +:+ type else "" in
        "<div class=" +:+ chr dq +:+ "formula" +:+ typeClass +:+ chr dq +:+ ">"
          +:+ escapeHtml (default "" (formula e)) +:+ "</div>"
      else mutedMarkup
  end.

(** [renderMarkers(markers)]. *)
Definition renderMarkers (markers : list string) : Node :=
  let chips :=
    foldl (λ wrapper m, wrapper ++ [Element "span" "marker-chip" (setTextContent m)])
          [] markers in
  Element "div" "markers"
    (if decide (length markers = 0) then chips ++ [mutedSpan] else chips).

(** A [div.cell-block] whose [innerHTML] is set to [html]. *)
Definition formulaBlock (html : string) : Node :=
  Element "div" "cell-block" (setInnerHTML html).

(** [renderCellContent(aspect, voiceKey)]; [None] is [undefined].  The
    voice key is one of the two that the program passes, [active] and
    [passive]. *)
Definition renderCellContent (aspect : option Aspect) (voiceKey : string) : Node :=
  match aspect with
  | None => Element "div" "cell-content" [mutedSpan]
  | Some aspect =>
      let desc :=
        if truthy (description aspect) then
          [Element "div" "cell-desc"
             (setTextContent (default "" (description aspect)))]
        else [] in
      let structures :=
        match structures aspect with
        | Some byVoice => default [] (byVoice !! voiceKey)
        | None => []
        end in
      let byType := indexByType structures in
      let aff :=
        formulaBlock
          (renderFormula (asEntry (getProperty byType "Affirmative")) "aff") in
      let neg :=
        formulaBlock
          (renderFormula (asEntry (getProperty byType "Negative")) "neg") in
      let q :=
        formulaBlock
          (renderFormula (asEntry (getProperty byType "Question")) "q") in
      let markersBlock :=
        Element "div" "cell-block" [renderMarkers (default [] (markers aspect))] in
      Element "div" "cell-content" (desc ++ [aff; neg; q; markersBlock])
  end.

(** The body of the loop over [state.data.tenses]: one [tr].  [timeCell]
    gives the children of the first [td]; it is where the two variants
    differ.  [nameToAspect] is read at the four column names only, which
    are neither keys that an object inherits nor fields of an aspect (all
    that an aspect named [__proto__] would make reachable), so its own
    keys as a finite map answer these reads. *)
Definition renderRow (timeCell : string → list Node) (voiceKey : string)
    (tense : Tense) : Node :=
  let tdTime := Element "td" "" (timeCell (time tense)) in
  let nameToAspect : gmap string Aspect :=
    foldl (λ map aspect, <[name aspect := aspect]> map) ∅ (aspects tense) in
  let row :=
    foldl (λ cells aspectName,
             cells ++ [Element "td" ""
                         [renderCellContent (nameToAspect !! aspectName) voiceKey]])
          [tdTime] columnOrder in
  Element "tr" "" row.

(** ** The page state *)

Record FetchRequest := { url : string; cache : string }.

(** A JavaScript [Error] object. *)
Record JsError := { errorName : string; message : string }.

(** [String(err)], that is [Error.prototype.toString]. *)
Definition errorToString (err : JsError) : string :=
  match errorName err, message err with
  | "", msg => msg
  | nm, "" => nm
  | nm, msg => nm +:+ ": " +:+ msg
  end.

Record Page := {
  voice : string;                  (* state.voice *)
  data : option Dataset;           (* state.data, None is null *)
  classList : list string;         (* controls.classList *)
  errorHidden : bool;              (* errorSection.hidden *)
  errorText : string;              (* errorSection.textContent *)
  tbody : option (list Node);      (* the rows of the table's tbody, if any *)
  fetches : list FetchRequest;     (* the requests issued so far *)
}.

Definition setVoice (v : string) (p : Page) : Page :=
  {| voice := v; data := data p; classList := classList p;
     errorHidden := errorHidden p; errorText := errorText p;
     tbody := tbody p; fetches := fetches p |}.

Definition setData (d : Dataset) (p : Page) : Page :=
  {| voice := voice p; data := Some d; classList := classList p;
     errorHidden := errorHidden p; errorText := errorText p;
     tbody := tbody p; fetches := fetches p |}.

Definition setClassList (cl : list string) (p : Page) : Page :=
  {| voice := voice p; data := data p; classList := cl;
     errorHidden := errorHidden p; errorText := errorText p;
     tbody := tbody p; fetches := fetches p |}.

Definition setTbody (rows : list Node) (p : Page) : Page :=
  {| voice := voice p; data := data p; classList := classList p;
     errorHidden := errorHidden p; errorText := errorText p;
     tbody := Some rows; fetches := fetches p |}.

Definition DATA_FILE : string := "./time-tenses.json".

Definition ERROR_PREFIX : string := "Ошибка загрузки данных: ".

(** [showError(err)]. *)
Definition showError (err : JsError) (p : Page) : Page :=
  {| voice := voice p; data := data p; classList := classList p;
     errorHidden := false;
     errorText :=
       ERROR_PREFIX +:+ (if truthy (Some (message err)) then message err
                         else errorToString err);
     tbody := tbody p; fetches := fetches p |}.

(** How the one request ends: the [fetch] promise rejects, or a response
    arrives with its [ok] flag, its status and what [response.json()]
    settles to. *)
Inductive FetchOutcome :=
| Rejected (err : JsError)
| Responded (ok : bool) (status : N) (json : JsError + Dataset).

(** The request [loadData] issues: [fetch(DATA_FILE, { cache: 'no-store' })]. *)
Definition loadRequest : FetchRequest :=
  {| url := DATA_FILE; cache := "no-store" |}.

(** [loadData()], given how its request ends: the value the promise
    fulfils with, or the error it rejects with. *)
Definition loadData (o : FetchOutcome) : JsError + Dataset :=
  match o with
  | Rejected err => inl err
  | Responded ok status json =>
      if negb ok then
        inl {| errorName := "Error";
               message := "HTTP " +:+ pretty status +:+ " while fetching "
                            +:+ DATA_FILE |}
      else json
  end.

(** The request is recorded when [fetch] is called. *)
Definition fetch (req : FetchRequest) (p : Page) : Page :=
  {| voice := voice p; data := data p; classList := classList p;
     errorHidden := errorHidden p; errorText := errorText p;
     tbody := tbody p; fetches := fetches p ++ [req] |}.

(** [render()], for a given way of filling the time cell. *)
Definition renderTable (timeCell : string → list Node) (p : Page) : Page :=
  match data p with
  | None => p
  | Some d =>
      match tbody p with
      | None => p
      | Some _ =>
          let voiceKey := voice p in
          setTbody
            (foldl (λ tbody tense, tbody ++ [renderRow timeCell voiceKey tense])
                   [] (tenses d))
            p
      end
  end.

(** The promise chain [loadData().then(...).catch(showError)], run when the
    request has ended. *)
Definition settle (render : Page → Page) (o : FetchOutcome) (p : Page) : Page :=
  match loadData o with
  | inr d => render (setData d p)
  | inl err => showError err p
  end.

(** ** src/app.js: the voice is chosen with a checkbox *)

Module AppJs.

(** What [init] finds in the document: the table (with the rows of its
    tbody when it has one), the checkbox (with its [checked] flag), the
    error section (hidden flag and text) and the controls (class list).
    [None] is an element that is missing. *)
Record Document := {
  table : option (option (list Node));
  voiceToggle : option bool;
  errorSection : option (bool * string);
  controls : option (list string);
}.

(** app.js:83, the children of the first cell of a row. *)
Definition timeCell (time : string) : list Node :=
  setInnerHTML ("<div class=" +:+ chr dq +:+ "time-name" +:+ chr dq +:+ ">"
                  +:+ escapeHtml time +:+ "</div>").

Definition render : Page → Page := renderTable timeCell.

(** [updateToggleState()]; [checked] is [voiceToggle.checked]. *)
Definition updateToggleState (checked : bool) (p : Page) : Page :=
  setClassList
    (classList_toggle "is-passive" checked
       (classList_toggle "is-active" (negb checked) (classList p)))
    p.

(** The body of [init] up to the point where the listener is attached. *)
Definition init (doc : Document) : option Page :=
  match table doc, voiceToggle doc, errorSection doc, controls doc with
  | Some tb, Some checked, Some (hidden, text), Some cl =>
      let state :=
        {| voice := "active"; data := None; classList := cl;
           errorHidden := hidden; errorText := text; tbody := tb;
           fetches := [] |} in
      Some (fetch loadRequest (updateToggleState checked state))
  | _, _, _, _ => None
  end.

(** A [change] event of the checkbox, which is then [checked] or not. *)
Inductive UserEvent := Change (checked : bool).

(** The [change] listener, app.js:43-47. *)
Definition handle (p : Page) (e : UserEvent) : Page :=
  match e with
  | Change checked =>
      render (updateToggleState checked
                (setVoice (if checked then "passive" else "active") p))
  end.

(** A whole visit: the events before the request ends, how it ends, and
    the events after. *)
Definition session (doc : Document) (before : list UserEvent)
    (o : FetchOutcome) (after : list UserEvent) : option Page :=
  match init doc with
  | Some p0 => Some (foldl handle (settle render o (foldl handle p0 before)) after)
  | None => None
  end.

End AppJs.

(** ** src/unnamed/part_000: the voice is chosen with two buttons *)

Module Part000.

(** As [AppJs.Document], with the two buttons in place of the checkbox. *)
Record Document := {
  table : option (option (list Node));
  btnActive : option unit;
  btnPassive : option unit;
  errorSection : option (bool * string);
  controls : option (list string);
}.

(** [renderTimeCell(timeName)]. *)
Definition renderTimeCell (timeName : string) : Node :=
  let title := Element "div" "time-name" (setTextContent timeName) in
  Element "div" "cell-content" [title].

Definition render : Page → Page :=
  renderTable (λ time, [renderTimeCell time]).

(** [updateControlsState()]. *)
Definition updateControlsState (p : Page) : Page :=
  setClassList
    (classList_toggle "is-passive" (bool_decide (voice p = "passive"))
       (classList_toggle "is-active" (bool_decide (voice p = "active"))
          (classList p)))
    p.

Definition init (doc : Document) : option Page :=
  match table doc, btnActive doc, btnPassive doc, errorSection doc,
        controls doc with
  | Some tb, Some _, Some _, Some (hidden, text), Some cl =>
      let state :=
        {| voice := "active"; data := None; classList := cl;
           errorHidden := hidden; errorText := text; tbody := tb;
           fetches := [] |} in
      Some (fetch loadRequest (updateControlsState state))
  | _, _, _, _, _ => None
  end.

(** A click on one of the two buttons. *)
Inductive UserEvent := ClickActive | ClickPassive.

(** The two [click] listeners, part_000:46-47. *)
Definition handle (p : Page) (e : UserEvent) : Page :=
  match e with
  | ClickActive => render (updateControlsState (setVoice "active" p))
  | ClickPassive => render (updateControlsState (setVoice "passive" p))
  end.

Definition session (doc : Document) (before : list UserEvent)
    (o : FetchOutcome) (after : list UserEvent) : option Page :=
  match init doc with
  | Some p0 => Some (foldl handle (settle render o (foldl handle p0 before)) after)
  | None => None
  end.

End Part000.

(** ** Notions of the specification *)

(** The aspect that a column shows: the last aspect of the tense that bears
    the column's name. *)
Definition aspectNamed (aspectName : string) (tense : Tense) : option Aspect :=
  last (filter (λ a, name a = aspectName) (aspects tense)).

(** The cell of one aspect column. *)
Definition aspectCell (voiceKey : string) (tense : Tense) (aspectName : string)
    : Node :=
  Element "td" "" [renderCellContent (aspectNamed aspectName tense) voiceKey].

(** Section 3: within a tense the aspect names are distinct and are among
    the four known categories. *)
Definition wfTense (t : Tense) : Prop :=
  NoDup (name <$> aspects t) ∧ Forall (λ a, name a ∈ columnOrder) (aspects t).

Definition wfDataset (d : Dataset) : Prop := Forall wfTense (tenses d).

(** The patterns an aspect has for a voice, the empty list when it has
    none: its voice-specific data. *)
Definition structuresFor (voiceKey : string) (a : Aspect) : list Structure :=
  match structures a with
  | Some byVoice => default [] (byVoice !! voiceKey)
  | None => []
  end.

(** The row of a tense: the time cell, then the four aspect cells in the
    fixed order. *)
Definition rowOf (timeCell : string → list Node) (voiceKey : string)
    (tense : Tense) : Node :=
  Element "tr" ""
    [Element "td" "" (timeCell (time tense));
     aspectCell voiceKey tense "Simple";
     aspectCell voiceKey tense "Continuous";
     aspectCell voiceKey tense "Perfect";
     aspectCell voiceKey tense "Perfect Continuous"].

(** [rows] holds one row per tense, in the order of the dataset. *)
Definition oneRowPerTense (timeCell : string → list Node) (voiceKey : string)
    (d : Dataset) (rows : list Node) : Prop :=
  length rows = length (tenses d)
  ∧ ∀ i t, tenses d !! i = Some t → rows !! i = Some (rowOf timeCell voiceKey t).

(** What a cell shows of an aspect, in the words of section 4.1: the
    description when there is one, *)
Definition descBlock (a : Aspect) : list Node :=
  match description a with
  | Some (String c r) => [Element "div" "cell-desc" [Text (String c r)]]
  | _ => []
  end.

(** the formula of the pattern of a given type for the voice, as text, or
    the glyph when the pattern or its formula is absent, *)
Definition formulaNode (voiceKey : string) (a : Aspect) (ty cls : string) : Node :=
  match last (filter (λ s, type s = ty) (structuresFor voiceKey a)) with
  | Some {| formula := Some (String c r) |} =>
      Element "div" ("formula formula--" +:+ cls) [Text (String c r)]
  | _ => Element "span" "muted" [Text DASH]
  end.

(** The markup [renderFormula] writes for a formula, and what a formula
    block holds for a pattern type: the nodes of that markup, which are one
    [div] with the formula as its text when the formula is plain text, or
    the glyph when the aspect has no pattern of the type for the voice or
    the pattern has no formula. *)
Definition formulaMarkup (cls f : string) : string :=
  "<div class=" +:+ chr dq +:+ "formula formula--" +:+ cls +:+ chr dq +:+ ">"
    +:+ escapeHtml f +:+ "</div>".

Definition showsFormula (voiceKey : string) (a : Aspect) (ty cls : string)
    (children : list Node) : Prop :=
  match last (filter (λ s, type s = ty) (structuresFor voiceKey a)) with
  | Some {| formula := Some (String c r) |} =>
      children = setInnerHTML (formulaMarkup cls (String c r))
      ∧ (plainText (String c r) = true →
         children
         = [Element "div" ("formula formula--" +:+ cls) [Text (String c r)]])
  | _ => children = [Element "span" "muted" [Text DASH]]
  end.

(** What the code puts in the formula block of a pattern type. *)
Definition blockChildren (voiceKey : string) (a : Aspect) (ty cls : string)
    : list Node :=
  setInnerHTML
    (renderFormula (last (filter (λ s, type s = ty) (structuresFor voiceKey a)))
       cls).

(** Every formula the aspect has for the voice is plain text. *)
Definition plainFormulas (voiceKey : string) (a : Aspect) : Prop :=
  ∀ s f, s ∈ structuresFor voiceKey a → formula s = Some f → plainText f = true.

(** and one chip per marker, or the glyph when there is no marker. *)
Definition markerChips (a : Aspect) : list Node :=
  match markers a with
  | Some (m :: ms) =>
      (λ m, Element "span" "marker-chip" (setTextContent m)) <$> m :: ms
  | _ => [Element "span" "muted" [Text DASH]]
  end.

(** An aspect column shows nothing that depends on the voice: the tense
    lacks the aspect, or the aspect has the same patterns for both voices
    (none, for instance). *)
Definition voiceNeutral (a : option Aspect) : Prop :=
  match a with
  | None => True
  | Some a => structuresFor "active" a = structuresFor "passive" a
  end.

(** Two cells that agree but for what their three formula blocks hold:
    same description, same markers block. *)
Definition formulaBlocksApart (cellA cellP : Node) : Prop :=
  ∃ desc affA negA qA affP negP qP markersBlock,
    cellA = Element "td" ""
              [Element "div" "cell-content"
                 (desc ++ [Element "div" "cell-block" affA;
                           Element "div" "cell-block" negA;
                           Element "div" "cell-block" qA;
                           markersBlock])]
    ∧ cellP = Element "td" ""
                [Element "div" "cell-content"
                   (desc ++ [Element "div" "cell-block" affP;
                             Element "div" "cell-block" negP;
                             Element "div" "cell-block" qP;
                             markersBlock])].

(** The rows for the active and for the passive voice are the same but for
    what formula blocks hold: as many rows; row by row the same time cell
    and four aspect cells, each pair of which is equal or apart in its
    formula blocks only, and equal when the column is voice-neutral. *)
Definition sameButFormulas (d : Dataset) (rowsA rowsP : list Node) : Prop :=
  length rowsA = length (tenses d)
  ∧ length rowsP = length (tenses d)
  ∧ ∀ i t, tenses d !! i = Some t →
      ∃ tdTime cellsA cellsP,
        rowsA !! i = Some (Element "tr" "" (tdTime :: cellsA))
        ∧ rowsP !! i = Some (Element "tr" "" (tdTime :: cellsP))
        ∧ length cellsA = 4 ∧ length cellsP = 4
        ∧ ∀ j c, columnOrder !! j = Some c →
            ∃ cellA cellP,
              cellsA !! j = Some cellA ∧ cellsP !! j = Some cellP
              ∧ (cellA = cellP ∨ formulaBlocksApart cellA cellP)
              ∧ (voiceNeutral (aspectNamed c t) → cellA = cellP).

(** The ways the load fails: the fetch is rejected, the response is not a
    success, or its body does not parse. *)
Definition fetchFailed (o : FetchOutcome) : bool :=
  match o with
  | Rejected _ => true
  | Responded false _ _ => true
  | Responded true _ (inl _) => true
  | Responded true _ (inr _) => false
  end.

(** What [showError] writes for an error. *)
Definition errorLine (err : JsError) : string :=
  ERROR_PREFIX +:+ (if truthy (Some (message err)) then message err
                    else errorToString err).

(** The page after a failed load: the error section is visible and holds
    the line for the error, no dataset is stored, and the table body is the
    one the document came with. *)
Definition failureShown (tbody0 : option (list Node)) (o : FetchOutcome)
    (p : Page) : Prop :=
  ∃ err, loadData o = inl err
         ∧ errorHidden p = false
         ∧ errorText p = errorLine err
         ∧ data p = None
         ∧ tbody p = tbody0.

(** What a run of listeners may not touch: the dataset, the requests and
    the error section; and the table body as long as no dataset is stored. *)
Definition framed (p q : Page) : Prop :=
  data q = data p
  ∧ fetches q = fetches p
  ∧ errorHidden q = errorHidden p
  ∧ errorText q = errorText p
  ∧ (data p = None → tbody q = tbody p).

(** The element that holds the name of a tense. *)
Definition timeName (time : string) : Node :=
  Element "div" "time-name" (setTextContent time).


(** The class that marks a voice on the controls, and the other voice. *)
Definition indicator (v : string) : string := "is-" +:+ v.

Definition otherVoice (v : string) : string :=
  if decide (v = "active") then "passive" else "active".

(** The voice flag is in one of its two states. *)
Definition twoStates (p : Page) : Prop :=
  voice p = "active" ∨ voice p = "passive".

#[global] Instance wfTense_dec t : Decision (wfTense t).
Proof. unfold wfTense. apply _. Defined.

#[global] Instance wfDataset_dec d : Decision (wfDataset d).
Proof. unfold wfDataset. apply _. Defined.

(** ** A small dataset, in the shape of [time-tenses.json] *)

Definition presentSimple : Aspect := {|
  name := "Simple";
  description := Some "Facts & habits";
  markers := Some ["always"; "usually"];
  structures := Some {[
    "active" := [ {| type := "Affirmative"; formula := Some "S + V(s)" |};
                  {| type := "Negative"; formula := Some "S + don't + V" |} ];
    "passive" := [ {| type := "Affirmative"; formula := Some "S + am/is/are + V3" |};
                   {| type := "Question"; formula := Some "Am/Is/Are + S + V3?" |} ]
  ]};
|}.

Definition presentPerfect : Aspect := {|
  name := "Perfect";
  description := None;
  markers := Some [];
  structures := Some {[
    "active" := [ {| type := "Affirmative"; formula := None |} ]
  ]};
|}.

Definition sampleDataset : Dataset := {|
  tenses := [ {| time := "Present"; aspects := [presentSimple; presentPerfect] |};
              {| time := "Past <simple>"; aspects := [] |} ];
|}.

(** A page on which the sample is stored and the passive voice selected. *)
Definition samplePage : Page := {|
  voice := "passive"; data := Some sampleDataset; classList := ["controls"];
  errorHidden := true; errorText := ""; tbody := Some [];
  fetches := [loadRequest];
|}.

(** Documents that have all the elements the scripts look up. *)
Definition sampleDocument : AppJs.Document := {|
  AppJs.table := Some (Some []);
  AppJs.voiceToggle := Some false;
  AppJs.errorSection := Some (true, "");
  AppJs.controls := Some ["controls"];
|}.

Definition sampleDocument000 : Part000.Document := {|
  Part000.table := Some (Some []);
  Part000.btnActive := Some ();
  Part000.btnPassive := Some ();
  Part000.errorSection := Some (true, "");
  Part000.controls := Some ["controls"];
|}.

(** ** Notions for the further properties *)

(** A string holds one of the five special characters. *)
Fixpoint hasSpecial (s : string) : bool :=
  match s with
  | "" => false
  | String a rest => htmlSpecial a || hasSpecial rest
  end.

(** The table shows the stored dataset for the current voice. *)
Definition upToDate (timeCell : string → list Node) (d : Dataset) (p : Page)
    : Prop :=
  data p = Some d ∧ tbody p = Some (rowOf timeCell (voice p) <$> tenses d).

(** The chip [renderMarkers] builds for one marker. *)
Definition markerChip (m : string) : Node :=
  Element "span" "marker-chip" (setTextContent m).

(** The voice that an event selects. *)
Definition selectedByChange (e : AppJs.UserEvent) : string :=
  match e with
  | AppJs.Change checked => if checked then "passive" else "active"
  end.

Definition selectedByClick (e : Part000.UserEvent) : string :=
  match e with
  | Part000.ClickActive => "active"
  | Part000.ClickPassive => "passive"
  end.

(** The voice after a run of selections that starts from the voice [v0]. *)
Definition lastSelected (v0 : string) (selections : list string) : string :=
  default v0 (last selections).

(** A tense without the aspects whose name is not one of the columns. *)
Definition withKnownAspects (t : Tense) : Tense :=
  {| time := time t;
     aspects := filter (λ a, name a ∈ columnOrder) (aspects t) |}.

(** The click of part_000 that selects what a change of the checkbox of
    app.js selects, and the document with two buttons in place of an
    unchecked checkbox. *)
Definition asClick (e : AppJs.UserEvent) : Part000.UserEvent :=
  match e with
  | AppJs.Change checked =>
      if checked then Part000.ClickPassive else Part000.ClickActive
  end.

Definition asButtons (doc : AppJs.Document) : Part000.Document :=
  {| Part000.table := AppJs.table doc;
     Part000.btnActive := Some ();
     Part000.btnPassive := Some ();
     Part000.errorSection := AppJs.errorSection doc;
     Part000.controls := AppJs.controls doc |}.

(** Two pages that differ at most in what their rows hold. *)
Definition agreeButRows (p q : Page) : Prop :=
  voice p = voice q
  ∧ data p = data q
  ∧ classList p = classList q
  ∧ errorHidden p = errorHidden q
  ∧ errorText p = errorText q
  ∧ fetches p = fetches q
  ∧ length <$> tbody p = length <$> tbody q
  ∧ (data p = None → tbody p = tbody q).

(** ** Properties of [escapeHtml] *)

Section EscapeHtml.

Lemma append_assoc (s1 s2 s3 : string) :
  (s1 +:+ s2) +:+ s3 = s1 +:+ (s2 +:+ s3).
Proof. induction s1 as [|a s1 IH]; simpl; [done|]. by rewrite IH. Qed.

Lemma replaceAll_app c b s1 s2 :
  replaceAll c b (s1 +:+ s2) = replaceAll c b s1 +:+ replaceAll c b s2.
Proof.
  induction s1 as [|a s1 IH]; [done|].
  cbn [String.append replaceAll]. rewrite IH.
  destruct (Ascii.eqb a c); [|done].
  by rewrite append_assoc.
Qed.

Lemma occurs_app c s1 s2 :
  occurs c (s1 +:+ s2) = occurs c s1 || occurs c s2.
Proof.
  induction s1 as [|a s1 IH]; simpl; [done|].
  by rewrite IH, orb_assoc.
Qed.

(** The five replacements, run one after the other, treat the first
    character on its own: the ampersands that a later replacement writes
    are not seen by the first one, which has already run. *)
Lemma escapeHtml_cons a s :
  escapeHtml (String a s) = entityOf a +:+ escapeHtml s.
Proof.
  unfold escapeHtml, entityOf. simpl.
  destruct (Ascii.eqb_spec a "&") as [->|?]; [reflexivity|]. simpl.
  destruct (Ascii.eqb_spec a "<") as [->|?]; [reflexivity|]. simpl.
  destruct (Ascii.eqb_spec a ">") as [->|?]; [reflexivity|]. simpl.
  destruct (Ascii.eqb_spec a dq) as [->|?]; [reflexivity|]. simpl.
  destruct (Ascii.eqb_spec a "'") as [->|?]; reflexivity.
Qed.

Lemma escapeHtml_escapeEach s : escapeHtml s = escapeEach s.
Proof.
  induction s as [|a s IH]; [reflexivity|].
  rewrite escapeHtml_cons, IH. reflexivity.
Qed.

Lemma entityOf_cases a :
  (htmlSpecial a = true ∧
     (a = "&"%char ∧ entityOf a = "&amp;" ∨ a = "<"%char ∧ entityOf a = "&lt;" ∨
      a = ">"%char ∧ entityOf a = "&gt;" ∨ a = dq ∧ entityOf a = "&quot;" ∨
      a = "'"%char ∧ entityOf a = "&#039;"))
  ∨ (htmlSpecial a = false ∧ entityOf a = chr a).
Proof.
  unfold htmlSpecial, entityOf.
  destruct (Ascii.eqb_spec a "&") as [->|?]; [left; split; [done|by left]|].
  destruct (Ascii.eqb_spec a "<") as [->|?];
    [left; split; [done|by right; left]|].
  destruct (Ascii.eqb_spec a ">") as [->|?];
    [left; split; [done|by right; right; left]|].
  destruct (Ascii.eqb_spec a dq) as [->|?];
    [left; split; [done|by right; right; right; left]|].
  destruct (Ascii.eqb_spec a "'") as [->|?];
    [left; split; [done|by right; right; right; right]|].
  by right.
Qed.

Lemma htmlSpecial_cases c :
  htmlSpecial c = true →
  c = "&"%char ∨ c = "<"%char ∨ c = ">"%char ∨ c = dq ∨ c = "'"%char.
Proof.
  destruct (entityOf_cases c) as [[_ H]|[H _]]; [|congruence].
  intros _. destruct H as [[? _]|[[? _]|[[? _]|[[? _]|[? _]]]]]; auto.
Qed.

(** No [<], [>], double or single quote is left in the result. *)
Lemma escapeEach_clean c s :
  htmlSpecial c = true → c ≠ "&"%char → occurs c (escapeEach s) = false.
Proof.
  intros Hc Hamp. induction s as [|a s IH]; [done|].
  cbn [escapeEach]. rewrite occurs_app, IH, orb_false_r.
  destruct (entityOf_cases a) as [[_ Hs]|[Hn ->]].
  - destruct (htmlSpecial_cases c Hc) as [->|[->|[->|[->| ->]]]];
      [done| | | |];
      destruct Hs as [[_ ->]|[[_ ->]|[[_ ->]|[[_ ->]|[_ ->]]]]];
      reflexivity.
  - cbn [occurs chr]. rewrite orb_false_r.
    destruct (Ascii.eqb_spec a c) as [->|?]; [congruence|done].
Qed.

Lemma append_nil_r (s : string) : s +:+ "" = s.
Proof. induction s as [|a s IH]; simpl; [done|by rewrite IH]. Qed.

End EscapeHtml.

(** ** Reading escaped text back *)

Lemma plainText_occurs s :
  plainText s = true → occurs NUL s = false ∧ occurs CR s = false.
Proof.
  unfold plainText. intros [H1 H2]%andb_true_iff.
  by apply negb_true_iff in H1, H2.
Qed.

(** Escaping neither adds nor removes a U+0000 or a carriage return. *)
Lemma occurs_escapeEach c s :
  c = NUL ∨ c = CR → occurs c (escapeEach s) = occurs c s.
Proof.
  intros Hc. induction s as [|a s IH]; [done|].
  cbn [escapeEach occurs]. rewrite occurs_app, IH. f_equal.
  destruct (entityOf_cases a) as [[_ Hs]|[_ ->]].
  - destruct Hc as [-> | ->];
      destruct Hs as [[-> ->]|[[-> ->]|[[-> ->]|[[-> ->]|[-> ->]]]]];
      reflexivity.
  - cbn. by rewrite orb_false_r.
Qed.

Lemma normalizeNewlines_plain s :
  occurs CR s = false → normalizeNewlines s = s.
Proof.
  induction s as [|a s IH]; [done|]. cbn [occurs normalizeNewlines].
  intros [Ha Hs]%orb_false_elim. rewrite Ha. by rewrite IH.
Qed.

Section ReadMarkup.

Variables (children : list Node) (stack : list OpenElement).

(** A character that is neither special nor U+0000 is read as itself. *)
Lemma scan_plain text a r :
  htmlSpecial a = false → a ≠ NUL →
  scan (Data text) children stack (String a r)
  = scan (Data (text +:+ chr a)) children stack r.
Proof.
  unfold htmlSpecial. intros H Hnul.
  destruct a as [[] [] [] [] [] [] [] []];
    try reflexivity; try discriminate H.
  by destruct Hnul.
Qed.

(** Escaped text without U+0000 is read as the text that was escaped. *)
Lemma scan_escapeEach s text r :
  occurs NUL s = false →
  scan (Data text) children stack (escapeEach s +:+ r)
  = scan (Data (text +:+ s)) children stack r.
Proof.
  revert text. induction s as [|a s IH]; intros text Hs.
  { by rewrite append_nil_r. }
  cbn [occurs] in Hs. apply orb_false_elim in Hs as [Ha Hs].
  cbn [escapeEach]. rewrite append_assoc.
  replace (text +:+ String a s) with ((text +:+ chr a) +:+ s)
    by (by rewrite append_assoc).
  destruct (entityOf_cases a) as [[_ Hsp]|[Hn ->]].
  - destruct Hsp as [[-> ->]|[[-> ->]|[[-> ->]|[[-> ->]|[-> ->]]]]];
      simpl String.append; cbn [scan Ascii.eqb Bool.eqb]; by apply IH.
  - simpl String.append. rewrite scan_plain; [by apply IH|done|].
    intros ->. discriminate Ha.
Qed.

End ReadMarkup.

Lemma flush_setTextContent text : flush text [] = setTextContent text.
Proof. by destruct text. Qed.

(** The markup of an escaped string of plain text is one text node that
    holds the string, and no element. *)
Lemma parseMarkup_escapeHtml s :
  plainText s = true → parseMarkup (escapeHtml s) = setTextContent s.
Proof.
  intros [Hnul Hcr]%plainText_occurs. unfold parseMarkup.
  rewrite escapeHtml_escapeEach.
  rewrite normalizeNewlines_plain by (by rewrite occurs_escapeEach; [|right]).
  rewrite <- (append_nil_r (escapeEach s)).
  rewrite scan_escapeEach by done. simpl. apply flush_setTextContent.
Qed.

(** The [div]s that the code writes around an escaped string. *)
Lemma parseMarkup_div cls s :
  plainText s = true →
  cls ∈ ["time-name"; "formula formula--aff"; "formula formula--neg";
         "formula formula--q"] →
  parseMarkup ("<div class=" +:+ chr dq +:+ cls +:+ chr dq +:+ ">"
                 +:+ escapeHtml s +:+ "</div>")
  = [Element "div" cls (setTextContent s)].
Proof.
  intros [Hnul Hcr]%plainText_occurs Hcls.
  rewrite escapeHtml_escapeEach, <- flush_setTextContent. unfold parseMarkup.
  assert (Hesc : occurs CR (escapeEach s) = false)
    by (by rewrite occurs_escapeEach; [|right]).
  repeat (apply elem_of_cons in Hcls as [->|Hcls];
          [rewrite normalizeNewlines_plain
             by (rewrite !occurs_app, Hesc; reflexivity);
           match goal with
           | |- scan _ _ _ (_ +:+ _ +:+ ?c +:+ _) = _ =>
               transitivity (scan (Data "") [] (openElement "div" c [] [])
                               (escapeEach s +:+ "</div>")); [reflexivity|]
           end;
           rewrite scan_escapeEach by done; reflexivity|]).
  by apply elem_of_nil in Hcls.
Qed.

Lemma parseMarkup_muted : parseMarkup mutedMarkup = [mutedSpan].
Proof. reflexivity. Qed.

(** ** Loops that fill a dictionary or a list *)

Section Loops.

Context {A B : Type}.

(** A loop that appends one item per element is a [map]. *)
Lemma foldl_snoc_map (f : A → B) (acc : list B) (l : list A) :
  foldl (λ acc x, acc ++ [f x]) acc l = acc ++ (f <$> l).
Proof.
  revert acc. induction l as [|x l IH]; intros acc; simpl.
  - by rewrite app_nil_r.
  - by rewrite IH, <- app_assoc.
Qed.

(** A loop [map[key(x)] = x] leaves under each key the last element that
    bears it, and what was there before under the other keys. *)
Lemma foldl_insert_lookup (key : A → string) (m : gmap string A)
    (l : list A) (k : string) :
  foldl (λ map x, <[key x := x]> map) m l !! k =
    match last (filter (λ x, key x = k) l) with
    | Some x => Some x
    | None => m !! k
    end.
Proof.
  induction l as [|x l IH] using rev_ind; [done|].
  rewrite foldl_app, filter_app. simpl foldl.
  rewrite lookup_insert. rewrite filter_cons, filter_nil.
  destruct (decide (key x = k)) as [Heq|Hne].
  - by rewrite last_snoc.
  - by rewrite app_nil_r, IH.
Qed.

(** When the keys are distinct, the last element under the key of an
    element is that element. *)
Lemma last_filter_unique (key : A → string) (l : list A) (x : A) :
  NoDup (key <$> l) → x ∈ l →
  last (filter (λ y, key y = key x) l) = Some x.
Proof.
  induction l as [|y l IH]; intros Hnd Hin; [by apply elem_of_nil in Hin|].
  rewrite fmap_cons in Hnd. apply NoDup_cons in Hnd as [Hy Hnd].
  rewrite filter_cons. apply elem_of_cons in Hin as [->|Hin].
  - rewrite decide_True by done.
    destruct (filter (λ z, key z = key y) l) as [|z l'] eqn:Hf; [done|].
    assert (z ∈ filter (λ z, key z = key y) l) as Hz by (rewrite Hf; left).
    apply list_elem_of_filter in Hz as [Heq Hz].
    destruct Hy. rewrite <- Heq. by apply list_elem_of_fmap_2.
  - rewrite decide_False; [by apply IH|].
    intros Heq. apply Hy. rewrite Heq. by apply list_elem_of_fmap_2.
Qed.

End Loops.

(** ** The index object *)

Lemma indexByType_snoc l x :
  indexByType (l ++ [x]) = setProperty (indexByType l) (type x) x.
Proof. unfold indexByType. by rewrite foldl_app. Qed.

(** The own properties: under each key but [__proto__], the last structure
    of that type. *)
Lemma indexByType_own l k :
  ownProperties (indexByType l) !! k
  = if decide (k = "__proto__") then None
    else last (filter (λ s, type s = k) l).
Proof.
  induction l as [|x l IH] using rev_ind; [by case_decide|].
  rewrite indexByType_snoc, filter_app, filter_cons, filter_nil.
  unfold setProperty. destruct (decide (type x = "__proto__")) as [Hx|Hx];
    cbn [ownProperties].
  - rewrite IH. case_decide as Hk; [done|].
    rewrite decide_False by congruence. by rewrite app_nil_r.
  - rewrite lookup_insert, IH.
    destruct (decide (type x = k)) as [<-|Hne].
    + rewrite decide_False by done. by rewrite last_snoc.
    + by rewrite app_nil_r.
Qed.

(** The prototype: the last structure of type [__proto__], if any. *)
Lemma indexByType_prototype l :
  prototype (indexByType l) = last (filter (λ s, type s = "__proto__") l).
Proof.
  induction l as [|x l IH] using rev_ind; [done|].
  rewrite indexByType_snoc, filter_app, filter_cons, filter_nil.
  unfold setProperty. destruct (decide (type x = "__proto__")) as [Hx|Hx];
    cbn [prototype].
  - by rewrite last_snoc.
  - by rewrite IH, app_nil_r.
Qed.

(** A key that no object inherits reads the own property. *)
Lemma getProperty_own o k :
  k ∉ objectPrototypeKeys → k ≠ "type" → k ≠ "formula" →
  getProperty o k = VStructure <$> ownProperties o !! k.
Proof.
  intros Hk Ht Hf. unfold getProperty, inheritedFromObject.
  destruct (ownProperties o !! k); [done|].
  rewrite decide_False by (intros ->; apply Hk; set_solver).
  rewrite !(decide_False (P:=k ∈ _)) by done.
  destruct (prototype o); by rewrite ?decide_False.
Qed.

Lemma getProperty_indexByType l k :
  k ∈ ["Affirmative"; "Negative"; "Question"] →
  getProperty (indexByType l) k
  = VStructure <$> last (filter (λ s, type s = k) l).
Proof.
  intros Hk.
  assert ((k ∉ objectPrototypeKeys) ∧ k ≠ "type" ∧ k ≠ "formula"
          ∧ k ≠ "__proto__") as (H1 & H2 & H3 & H4).
  { repeat (apply elem_of_cons in Hk as [->|Hk];
            [split_and!; [by apply (bool_decide_unpack _)|done..]|]).
    by apply elem_of_nil in Hk. }
  rewrite getProperty_own, indexByType_own by done.
  by rewrite decide_False.
Qed.

(** Closes a goal about the markup of a formula [f] with a known class. *)
Ltac parse_formula_div f Hplain :=
  match goal with
  | |- parseMarkup _ = [Element "div" ?k _] =>
      let k' := eval vm_compute in k in
      exact (parseMarkup_div k' f Hplain ltac:(set_solver))
  end.

(** ** The claims *)

(** C9.  [escapeHtml] replaces every [&], [<], [>], double quote and single
    quote of its input by the character's entity and leaves every other
    character alone: the five replacements in a row compute the
    character-by-character escape [escapeEach].  Hence the result holds no
    [<], [>] or quote at all and its ampersands are those of the entities;
    the markup that [renderFormula] builds for a formula holds the formula
    in this escaped form only.  For plain text (no U+0000, no carriage
    return, which the HTML parser does not keep) the escaped string read as
    markup is the input as one text node, and a formula block holds one
    [div] with the formula as its text, whatever other characters the
    formula has. *)
Theorem escapeHtml_replaces_specials (str : string) :
  escapeHtml str = escapeEach str
  ∧ occurs "<" (escapeHtml str) = false
  ∧ occurs ">" (escapeHtml str) = false
  ∧ occurs dq (escapeHtml str) = false
  ∧ occurs "'" (escapeHtml str) = false
  ∧ (plainText str = true → parseMarkup (escapeHtml str) = setTextContent str)
  ∧ (∀ (ty : string) (c : ascii) (rest cls : string),
       renderFormula (Some {| type := ty; formula := Some (String c rest) |}) cls
       = "<div class=" +:+ chr dq +:+ "formula"
           +:+ (if truthy (Some cls) then " formula--" +:+ cls else "")
           +:+ chr dq +:+ ">" +:+ escapeEach (String c rest) +:+ "</div>")
  ∧ (∀ (ty : string) (c : ascii) (rest cls : string),
       cls ∈ ["aff"; "neg"; "q"] → plainText (String c rest) = true →
       setInnerHTML
         (renderFormula (Some {| type := ty; formula := Some (String c rest) |}) cls)
       = [Element "div" ("formula formula--" +:+ cls) [Text (String c rest)]]).
Proof.
  split; [apply escapeHtml_escapeEach|].
  split_and!; try (rewrite escapeHtml_escapeEach; by apply escapeEach_clean).
  - apply parseMarkup_escapeHtml.
  - intros ty c rest cls. unfold renderFormula. cbn [truthy formula default].
    by rewrite escapeHtml_escapeEach.
  - intros ty c rest cls Hcls Hplain. unfold renderFormula, setInnerHTML.
    cbn [truthy formula default].
    repeat (apply elem_of_cons in Hcls as [->|Hcls];
            [parse_formula_div (String c rest) Hplain|]).
    by apply elem_of_nil in Hcls.
Qed.

(** C10.  The object that [indexByType] returns has as its own keys the
    types of the list other than [__proto__]: every such key holds the last
    structure of the list that bears it as its type, so a later entry
    overrides an earlier one of the same type, and a key that is the type
    of no entry is not an own key.  A structure of type [__proto__] adds no
    key: it becomes the prototype of the object.  The keys that the
    renderer reads, [Affirmative], [Negative] and [Question], read the last
    structure of that type, or nothing.  When the types are distinct, each
    entry of a type other than [__proto__] is found under its type. *)
Theorem indexByType_last_wins (structures : list Structure) :
  (∀ k, k ≠ "__proto__" →
        ownProperties (indexByType structures) !! k
        = last (filter (λ s, type s = k) structures))
  ∧ ownProperties (indexByType structures) !! "__proto__" = None
  ∧ prototype (indexByType structures)
    = last (filter (λ s, type s = "__proto__") structures)
  ∧ (∀ k, k ∉ type <$> structures →
          ownProperties (indexByType structures) !! k = None)
  ∧ (∀ k, k ∈ ["Affirmative"; "Negative"; "Question"] →
          getProperty (indexByType structures) k
          = VStructure <$> last (filter (λ s, type s = k) structures))
  ∧ (NoDup (type <$> structures) →
     ∀ s, s ∈ structures → type s ≠ "__proto__" →
          ownProperties (indexByType structures) !! type s = Some s).
Proof.
  split_and!.
  - intros k Hk. by rewrite indexByType_own, decide_False.
  - by rewrite indexByType_own.
  - apply indexByType_prototype.
  - intros k Hk. rewrite indexByType_own. case_decide; [done|].
    destruct (last _) as [s|] eqn:Hs; [|done].
    apply last_Some_elem_of, list_elem_of_filter in Hs as [<- Hin].
    destruct Hk. by apply list_elem_of_fmap_2.
  - apply getProperty_indexByType.
  - intros Hnd s Hin Hs. rewrite indexByType_own, decide_False by done.
    by apply last_filter_unique.
Qed.

(** The claim read on what the object answers: a read of [constructor] on
    the index of the empty list finds a value although no structure has
    that type; and a structure of type [__proto__] is under no own key,
    while its fields are read through the object. *)
Lemma indexByType_reads_inherited_keys :
  ("constructor" ∉ type <$> ([] : list Structure))
  ∧ getProperty (indexByType []) "constructor" = Some (VBuiltin "constructor")
  ∧ let s := {| type := "__proto__"; formula := Some "S + V" |} in
    ("__proto__" ∈ type <$> [s])
    ∧ ownProperties (indexByType [s]) !! "__proto__" = None
    ∧ ("formula" ∉ type <$> [s])
    ∧ getProperty (indexByType [s]) "formula" = Some (VString "S + V").
Proof.
  split; [by apply (bool_decide_unpack _)|]. split; [reflexivity|].
  intros s. split_and!.
  - left.
  - reflexivity.
  - by apply (bool_decide_unpack _).
  - reflexivity.
Qed.

(** ** The table *)

Section Table.

Variable timeCell : string → list Node.

Lemma renderRow_rowOf v t : renderRow timeCell v t = rowOf timeCell v t.
Proof.
  unfold renderRow, rowOf, columnOrder. cbn [foldl app]. unfold aspectCell, aspectNamed.
  by rewrite !foldl_insert_lookup, !lookup_empty; repeat destruct (last _).
Qed.

Lemma renderTable_tbody p d rows0 :
  data p = Some d → tbody p = Some rows0 →
  tbody (renderTable timeCell p) = Some (rowOf timeCell (voice p) <$> tenses d).
Proof.
  intros Hd Ht. unfold renderTable. rewrite Hd, Ht. cbn [setTbody tbody].
  rewrite foldl_snoc_map. cbn [app]. f_equal.
  apply list_fmap_ext. intros ? t _. apply renderRow_rowOf.
Qed.

Lemma renderTable_rows p d rows0 :
  data p = Some d → tbody p = Some rows0 →
  ∃ rows, tbody (renderTable timeCell p) = Some rows
          ∧ oneRowPerTense timeCell (voice p) d rows.
Proof.
  intros Hd Ht. eexists. split; [by eapply renderTable_tbody|]. split.
  - by rewrite length_fmap.
  - intros i t Hi. by rewrite list_lookup_fmap, Hi.
Qed.

(** [render] does nothing without a dataset or without a tbody. *)
Lemma renderTable_no_data p : data p = None → renderTable timeCell p = p.
Proof. intros H. unfold renderTable. by rewrite H. Qed.

Lemma renderTable_data p : data (renderTable timeCell p) = data p.
Proof. unfold renderTable. by repeat case_match. Qed.

Lemma renderTable_voice p : voice (renderTable timeCell p) = voice p.
Proof. unfold renderTable. by repeat case_match. Qed.

Lemma renderTable_classList p : classList (renderTable timeCell p) = classList p.
Proof. unfold renderTable. by repeat case_match. Qed.

Lemma renderTable_fetches p : fetches (renderTable timeCell p) = fetches p.
Proof. unfold renderTable. by repeat case_match. Qed.

Lemma renderTable_error p :
  errorHidden (renderTable timeCell p) = errorHidden p
  ∧ errorText (renderTable timeCell p) = errorText p.
Proof. unfold renderTable. by repeat case_match. Qed.

End Table.

Lemma wfTense_aspectNamed t a :
  wfTense t → a ∈ aspects t →
  name a ∈ columnOrder ∧ aspectNamed (name a) t = Some a.
Proof.
  intros [Hnd Hall] Hin. split.
  - by eapply Forall_forall in Hall.
  - by apply last_filter_unique.
Qed.

(** C1.  With a well-formed dataset stored and either voice selected,
    [render] (in both variants) leaves in the table body exactly one row per
    tense, in the order of the dataset; each row is the time cell followed by
    exactly four aspect cells, for Simple, Continuous, Perfect and Perfect
    Continuous in this order; and every aspect of a tense is the one shown
    in the column of its name. *)
Theorem render_one_row_per_tense (p : Page) (d : Dataset) (rows0 : list Node) :
  wfDataset d → data p = Some d → tbody p = Some rows0 →
  (∃ rows, tbody (AppJs.render p) = Some rows
           ∧ oneRowPerTense AppJs.timeCell (voice p) d rows)
  ∧ (∃ rows, tbody (Part000.render p) = Some rows
             ∧ oneRowPerTense (λ time, [Part000.renderTimeCell time]) (voice p) d rows)
  ∧ columnOrder = ["Simple"; "Continuous"; "Perfect"; "Perfect Continuous"]
  ∧ ∀ t a, t ∈ tenses d → a ∈ aspects t →
      name a ∈ columnOrder ∧ aspectNamed (name a) t = Some a.
Proof.
  intros Hwf Hd Ht. split_and!.
  - by eapply renderTable_rows.
  - by eapply renderTable_rows.
  - done.
  - intros t a Hin Ha. apply wfTense_aspectNamed; [|done].
    by eapply Forall_forall in Hwf.
Qed.

(** ** The cells *)

Lemma asEntry_getProperty l k :
  k ∈ ["Affirmative"; "Negative"; "Question"] →
  asEntry (getProperty (indexByType l) k) = last (filter (λ s, type s = k) l).
Proof.
  intros Hk. rewrite getProperty_indexByType by done. by destruct (last _).
Qed.

Lemma renderMarkers_markerChips a :
  renderMarkers (default [] (markers a)) = Element "div" "markers" (markerChips a).
Proof.
  unfold renderMarkers, markerChips. rewrite foldl_snoc_map.
  by destruct (markers a) as [[|m ms]|].
Qed.

(** The cell of an aspect, block by block. *)
Lemma renderCellContent_blocks a v :
  renderCellContent (Some a) v
  = Element "div" "cell-content"
      (descBlock a ++
       [Element "div" "cell-block" (blockChildren v a "Affirmative" "aff");
        Element "div" "cell-block" (blockChildren v a "Negative" "neg");
        Element "div" "cell-block" (blockChildren v a "Question" "q");
        Element "div" "cell-block" [Element "div" "markers" (markerChips a)]]).
Proof.
  unfold renderCellContent, formulaBlock, blockChildren.
  fold (structuresFor v a).
  rewrite !asEntry_getProperty by set_solver.
  rewrite renderMarkers_markerChips. do 2 f_equal.
  unfold descBlock. by destruct (description a) as [[|c r]|].
Qed.

Lemma blockChildren_shows v a ty cls :
  cls ∈ ["aff"; "neg"; "q"] → showsFormula v a ty cls (blockChildren v a ty cls).
Proof.
  intros Hcls. unfold showsFormula, blockChildren.
  destruct (last _) as [[t [[|c r]|]]|]; try reflexivity.
  unfold renderFormula, formulaMarkup, setInnerHTML.
  cbn [truthy formula default].
  repeat (apply elem_of_cons in Hcls as [->|Hcls];
          [split; [reflexivity|];
           intros Hplain; parse_formula_div (String c r) Hplain|]).
  by apply elem_of_nil in Hcls.
Qed.

Lemma blockChildren_plain v a ty cls :
  cls ∈ ["aff"; "neg"; "q"] → plainFormulas v a →
  blockChildren v a ty cls = [formulaNode v a ty cls].
Proof.
  intros Hcls Hplain. pose proof (blockChildren_shows v a ty cls Hcls) as H.
  unfold showsFormula, formulaNode in *.
  destruct (last _) as [[t [[|c r]|]]|] eqn:Hlast; try done.
  apply H. apply last_Some_elem_of, list_elem_of_filter in Hlast as [_ Hin].
  by apply (Hplain _ _ Hin).
Qed.

(** C4.  For the two voices: a cell of an aspect that the tense lacks is a
    single placeholder glyph.  A cell of an aspect holds the description
    (when the aspect has one), then exactly three formula blocks, for the
    affirmative, the negative and the question pattern of the voice in this
    order, each holding the glyph when the pattern or its formula is
    absent and otherwise the nodes of the escaped formula (one [div] with
    the formula as its text, for a formula of plain text), then a markers
    block with one chip per marker or the glyph when the marker list is
    empty or absent. *)
Theorem cell_shows_aspect (voiceKey : string) (a : Aspect) :
  voiceKey = "active" ∨ voiceKey = "passive" →
  renderCellContent None voiceKey
  = Element "div" "cell-content" [Element "span" "muted" [Text "—"]]
  ∧ (∃ aff neg q,
       renderCellContent (Some a) voiceKey
       = Element "div" "cell-content"
           (descBlock a ++
            [Element "div" "cell-block" aff;
             Element "div" "cell-block" neg;
             Element "div" "cell-block" q;
             Element "div" "cell-block" [Element "div" "markers" (markerChips a)]])
       ∧ showsFormula voiceKey a "Affirmative" "aff" aff
       ∧ showsFormula voiceKey a "Negative" "neg" neg
       ∧ showsFormula voiceKey a "Question" "q" q)
  ∧ (∀ ty cls children,
       showsFormula voiceKey a ty cls children →
       ty ∉ type <$> structuresFor voiceKey a →
       children = [Element "span" "muted" [Text "—"]])
  ∧ (∀ ty cls children s,
       showsFormula voiceKey a ty cls children →
       last (filter (λ s, type s = ty) (structuresFor voiceKey a)) = Some s →
       formula s = None →
       children = [Element "span" "muted" [Text "—"]])
  ∧ (∀ ty cls children s f,
       showsFormula voiceKey a ty cls children →
       last (filter (λ s, type s = ty) (structuresFor voiceKey a)) = Some s →
       formula s = Some f → f ≠ "" → plainText f = true →
       children = [Element "div" ("formula formula--" +:+ cls) [Text f]])
  ∧ (markers a = None ∨ markers a = Some [] →
       markerChips a = [Element "span" "muted" [Text "—"]])
  ∧ (∀ dsc, description a = Some dsc → dsc ≠ "" →
       descBlock a = [Element "div" "cell-desc" [Text dsc]])
  ∧ (description a = None → descBlock a = []).
Proof.
  intros _. split_and!; try done.
  - do 3 eexists. split; [apply renderCellContent_blocks|].
    split_and!; apply blockChildren_shows; set_solver.
  - intros ty cls children Hshows Hty. unfold showsFormula in Hshows.
    destruct (last _) as [s|] eqn:Hs; [|done].
    apply last_Some_elem_of, list_elem_of_filter in Hs as [<- Hin].
    destruct Hty. by apply list_elem_of_fmap_2.
  - intros ty cls children [t f] Hshows Hs Hf. unfold showsFormula in Hshows.
    rewrite Hs in Hshows. simpl in Hf. by subst f.
  - intros ty cls children [t f'] f Hshows Hs Hf Hne Hplain.
    unfold showsFormula in Hshows. rewrite Hs in Hshows.
    simpl in Hf. subst f'. destruct f as [|c r]; [done|]. by apply Hshows.
  - unfold markerChips. by intros [-> | ->].
  - unfold descBlock. intros dsc -> Hne. by destruct dsc.
  - unfold descBlock. by intros ->.
Qed.

(** ** The two voices *)

Lemma renderCellContent_neutral a :
  voiceNeutral a → renderCellContent a "active" = renderCellContent a "passive".
Proof.
  destruct a as [a|]; [|done]. cbn [voiceNeutral]. intros H.
  rewrite !renderCellContent_blocks. unfold blockChildren. by rewrite H.
Qed.

Lemma aspectCell_voices t c :
  (aspectCell "active" t c = aspectCell "passive" t c
   ∨ formulaBlocksApart (aspectCell "active" t c) (aspectCell "passive" t c))
  ∧ (voiceNeutral (aspectNamed c t) →
     aspectCell "active" t c = aspectCell "passive" t c).
Proof.
  unfold aspectCell. split.
  - destruct (aspectNamed c t) as [a|]; [right|by left].
    rewrite !renderCellContent_blocks. unfold formulaBlocksApart.
    do 8 eexists. split; reflexivity.
  - intros Hn. by rewrite (renderCellContent_neutral _ Hn).
Qed.

Lemma renderTable_sameButFormulas timeCell p d rows0 :
  data p = Some d → tbody p = Some rows0 →
  ∃ rowsA rowsP,
    tbody (renderTable timeCell (setVoice "active" p)) = Some rowsA
    ∧ tbody (renderTable timeCell (setVoice "passive" p)) = Some rowsP
    ∧ sameButFormulas d rowsA rowsP.
Proof.
  intros Hd Ht. do 2 eexists. split_and!.
  - by eapply (renderTable_tbody timeCell (setVoice "active" p)).
  - by eapply (renderTable_tbody timeCell (setVoice "passive" p)).
  - cbn [voice setVoice]. unfold sameButFormulas.
    rewrite !length_fmap. split_and!; [done..|].
    intros i t Hi. rewrite !list_lookup_fmap, Hi. unfold rowOf.
    do 3 eexists. split_and!; [done..|].
    intros j c Hj. destruct (aspectCell_voices t c) as [Hpair Hneutral].
    destruct j as [|[|[|[|j]]]]; simplify_eq/=;
      by do 2 eexists; split_and!; [done|done|exact Hpair|exact Hneutral].
Qed.

(** C3.  For every stored dataset, the table rendered for the active voice
    and the table rendered for the passive voice (in both variants) have
    the same rows with the same cells, and differ at most in what formula
    blocks hold: row by row the time cell is the same, and each of the four
    aspect cells is the same in both tables or differs in its three formula
    blocks only, with the same description and the same marker chips; the
    placeholder of an absent aspect, and the cell of an aspect whose
    patterns do not depend on the voice, are the same in both tables. *)
Theorem voice_changes_formulas_only (p : Page) (d : Dataset) (rows0 : list Node) :
  data p = Some d → tbody p = Some rows0 →
  (∃ rowsA rowsP,
     tbody (AppJs.render (setVoice "active" p)) = Some rowsA
     ∧ tbody (AppJs.render (setVoice "passive" p)) = Some rowsP
     ∧ sameButFormulas d rowsA rowsP)
  ∧ (∃ rowsA rowsP,
       tbody (Part000.render (setVoice "active" p)) = Some rowsA
       ∧ tbody (Part000.render (setVoice "passive" p)) = Some rowsP
       ∧ sameButFormulas d rowsA rowsP).
Proof.
  intros Hd Ht. split; by eapply renderTable_sameButFormulas.
Qed.

(** ** The page: listeners and the promise chain *)

Lemma framed_refl p : framed p p.
Proof. by unfold framed. Qed.

Lemma framed_trans p q r : framed p q → framed q r → framed p r.
Proof.
  unfold framed. intros (Hd & Hf & Hh & Ht & Hb) (Hd' & Hf' & Hh' & Ht' & Hb').
  split_and!; try congruence.
  intros Hn. rewrite Hb', Hb; [done..|congruence].
Qed.

Lemma renderTable_framed timeCell p : framed p (renderTable timeCell p).
Proof.
  unfold framed, renderTable. destruct (data p) eqn:Hd; [|by rewrite Hd].
  destruct (tbody p); cbn; rewrite ?Hd; split_and!; done.
Qed.

Lemma AppJs_handle_framed p e : framed p (AppJs.handle p e).
Proof.
  destruct e as [checked]. unfold AppJs.handle, AppJs.render.
  eapply framed_trans; [|apply renderTable_framed]. by unfold framed.
Qed.

Lemma Part000_handle_framed p e : framed p (Part000.handle p e).
Proof.
  destruct e; unfold Part000.handle, Part000.render;
    (eapply framed_trans; [|apply renderTable_framed]); by unfold framed.
Qed.

Lemma foldl_framed {E} (handle : Page → E → Page) (events : list E) p :
  (∀ q e, framed q (handle q e)) → framed p (foldl handle p events).
Proof.
  intros H. revert p. induction events as [|e events IH]; intros p.
  - apply framed_refl.
  - simpl. eapply framed_trans; [apply H|apply IH].
Qed.

Lemma fetchFailed_loadData o :
  fetchFailed o = true → ∃ err, loadData o = inl err.
Proof. destruct o as [err|[] status [err|d]]; simpl; eauto; done. Qed.

Lemma loadData_fetchFailed o d : loadData o = inr d → fetchFailed o = false.
Proof. by destruct o as [err|[] status [err|d']]. Qed.

(** A failed load, in the middle of any run of listeners. *)
Lemma failed_session {E} (handle : Page → E → Page) (render : Page → Page)
    (before after : list E) (o : FetchOutcome) (p0 : Page) :
  (∀ q e, framed q (handle q e)) →
  data p0 = None → fetchFailed o = true →
  tbody (foldl handle p0 before) = tbody p0
  ∧ failureShown (tbody p0) o
      (foldl handle (settle render o (foldl handle p0 before)) after).
Proof.
  intros Hh Hd Hfail.
  destruct (foldl_framed handle before p0 Hh) as (Hd1 & _ & _ & _ & Hb1).
  split; [by apply Hb1|].
  destruct (fetchFailed_loadData o Hfail) as [err Herr].
  unfold settle. rewrite Herr.
  set (p1 := foldl handle p0 before) in *.
  destruct (foldl_framed handle after (showError err p1) Hh)
    as (Hd2 & _ & Hh2 & Ht2 & Hb2).
  exists err. cbn [showError data errorHidden errorText tbody] in *.
  split_and!; try done.
  - congruence.
  - rewrite Hb2; [by apply Hb1|congruence].
Qed.

Lemma AppJs_init_page doc p0 :
  AppJs.init doc = Some p0 →
  data p0 = None ∧ fetches p0 = [loadRequest] ∧ voice p0 = "active"
  ∧ AppJs.table doc = Some (tbody p0).
Proof.
  unfold AppJs.init. intros H. repeat case_match; simplify_eq. done.
Qed.

Lemma Part000_init_page doc p0 :
  Part000.init doc = Some p0 →
  data p0 = None ∧ fetches p0 = [loadRequest] ∧ voice p0 = "active"
  ∧ Part000.table doc = Some (tbody p0).
Proof.
  unfold Part000.init. intros H. repeat case_match; simplify_eq. done.
Qed.

(** C2.  On a page that has the elements the script looks up: when the load
    fails (the fetch is rejected, the response is not a success, or its body
    does not parse), then, whatever the user does
    before and after, the error section is visible and holds the error
    line, no dataset is stored, and the table body is as the document had
    it at every moment: no row is appended, so a body that was empty stays
    empty.  It holds for both variants; [render] without a stored dataset
    does nothing. *)
Theorem fetch_failure_shows_error (o : FetchOutcome) :
  fetchFailed o = true →
  (∀ doc p0 before after,
     AppJs.init doc = Some p0 →
     ∃ p, AppJs.session doc before o after = Some p
          ∧ AppJs.table doc = Some (tbody p0)
          ∧ tbody (foldl AppJs.handle p0 before) = tbody p0
          ∧ failureShown (tbody p0) o p
          ∧ (tbody p0 = Some [] → tbody p = Some []))
  ∧ (∀ doc p0 before after,
       Part000.init doc = Some p0 →
       ∃ p, Part000.session doc before o after = Some p
            ∧ Part000.table doc = Some (tbody p0)
            ∧ tbody (foldl Part000.handle p0 before) = tbody p0
            ∧ failureShown (tbody p0) o p
            ∧ (tbody p0 = Some [] → tbody p = Some []))
  ∧ (∀ q, data q = None → AppJs.render q = q ∧ Part000.render q = q).
Proof.
  intros Hfail. split_and!.
  - intros doc p0 before after Hinit.
    destruct (AppJs_init_page doc p0 Hinit) as (Hd & _ & _ & Htb).
    destruct (failed_session AppJs.handle AppJs.render before after o p0
                AppJs_handle_framed Hd Hfail) as [Hb Hshown].
    unfold AppJs.session. rewrite Hinit. eexists. split_and!; try done.
    destruct Hshown as (err & _ & _ & _ & _ & Ht). congruence.
  - intros doc p0 before after Hinit.
    destruct (Part000_init_page doc p0 Hinit) as (Hd & _ & _ & Htb).
    destruct (failed_session Part000.handle Part000.render before after o p0
                Part000_handle_framed Hd Hfail) as [Hb Hshown].
    unfold Part000.session. rewrite Hinit. eexists. split_and!; try done.
    destruct Hshown as (err & _ & _ & _ & _ & Ht). congruence.
  - intros q Hq. split; by apply renderTable_no_data.
Qed.

Lemma settle_fetches timeCell o p :
  fetches (settle (renderTable timeCell) o p) = fetches p.
Proof.
  unfold settle. destruct (loadData o); [done|].
  by rewrite renderTable_fetches.
Qed.

Lemma session_fetches {E} (handle : Page → E → Page) timeCell
    (before after : list E) (o : FetchOutcome) (p0 : Page) :
  (∀ q e, framed q (handle q e)) →
  fetches (foldl handle (settle (renderTable timeCell) o (foldl handle p0 before))
             after) = fetches p0.
Proof.
  intros Hh.
  destruct (foldl_framed handle before p0 Hh) as (_ & Hf1 & _).
  destruct (foldl_framed handle after
              (settle (renderTable timeCell) o (foldl handle p0 before)) Hh)
    as (_ & Hf2 & _).
  by rewrite Hf2, settle_fetches.
Qed.

(** C5.  A document that has the elements the script looks up (the table,
    the checkbox or the two buttons, the error section and the controls)
    starts a page, and that page issues exactly one request, at startup,
    for [./time-tenses.json] with the cache mode [no-store], and none
    later, whatever the user does and however the request ends (no retry).
    When the response is not a success or its body does not parse, the
    error line is displayed and the table body is left as it was
    (nothing is rendered).  The message is static in this sense: it is the
    fixed prefix followed by the message of the error (for a response that
    is not a success: the status and the file), written once as text, and
    no later selection changes it.  It holds for both variants. *)
Theorem load_once_no_store (o : FetchOutcome) :
  loadRequest = {| url := "./time-tenses.json"; cache := "no-store" |}
  ∧ (∀ status json,
       loadData (Responded false status json)
       = inl {| errorName := "Error";
                message := "HTTP " +:+ pretty status
                             +:+ " while fetching ./time-tenses.json" |})
  ∧ (∀ status err, loadData (Responded true status (inl err)) = inl err)
  ∧ (∀ status json,
       fetchFailed (Responded false status json) = true
       ∧ ∀ err, loadData (Responded false status json) = inl err →
           errorLine err
           = "Ошибка загрузки данных: HTTP " +:+ pretty status
               +:+ " while fetching ./time-tenses.json")
  ∧ (∀ doc before after,
       is_Some (AppJs.table doc) → is_Some (AppJs.voiceToggle doc) →
       is_Some (AppJs.errorSection doc) → is_Some (AppJs.controls doc) →
       ∃ p0, AppJs.init doc = Some p0
         ∧ fetches p0 = [loadRequest]
         ∧ AppJs.table doc = Some (tbody p0)
         ∧ ∃ p, AppJs.session doc before o after = Some p
                ∧ fetches p = [loadRequest]
                ∧ (fetchFailed o = true → failureShown (tbody p0) o p))
  ∧ (∀ doc before after,
       is_Some (Part000.table doc) → is_Some (Part000.btnActive doc) →
       is_Some (Part000.btnPassive doc) →
       is_Some (Part000.errorSection doc) → is_Some (Part000.controls doc) →
       ∃ p0, Part000.init doc = Some p0
         ∧ fetches p0 = [loadRequest]
         ∧ Part000.table doc = Some (tbody p0)
         ∧ ∃ p, Part000.session doc before o after = Some p
                ∧ fetches p = [loadRequest]
                ∧ (fetchFailed o = true → failureShown (tbody p0) o p)).
Proof.
  split_and!; try done.
  - intros status json. split; [done|]. intros err [= <-].
    unfold errorLine. cbn [message].
    destruct (pretty status) as [|c r] eqn:Hs; reflexivity.
  - intros doc before after [tb Ht] [ck Hc] [[h t] He] [cl Hcl].
    destruct (AppJs.init doc) as [p0|] eqn:Hinit;
      [|unfold AppJs.init in Hinit; by rewrite Ht, Hc, He, Hcl in Hinit].
    destruct (AppJs_init_page doc p0 Hinit) as (Hd & Hf & _ & Htb).
    exists p0. split_and!; [done..|].
    unfold AppJs.session. rewrite Hinit. eexists.
    split_and!; [done| |].
    + unfold AppJs.render.
      by rewrite (session_fetches AppJs.handle), Hf
        by apply AppJs_handle_framed.
    + intros Hfail.
      by apply (failed_session AppJs.handle AppJs.render before after o p0
                  AppJs_handle_framed Hd Hfail).
  - intros doc before after [tb Ht] [ba Ha] [bp Hp] [[h t] He] [cl Hcl].
    destruct (Part000.init doc) as [p0|] eqn:Hinit;
      [|unfold Part000.init in Hinit; by rewrite Ht, Ha, Hp, He, Hcl in Hinit].
    destruct (Part000_init_page doc p0 Hinit) as (Hd & Hf & _ & Htb).
    exists p0. split_and!; [done..|].
    unfold Part000.session. rewrite Hinit. eexists.
    split_and!; [done| |].
    + unfold Part000.render.
      by rewrite (session_fetches Part000.handle), Hf
        by apply Part000_handle_framed.
    + intros Hfail.
      by apply (failed_session Part000.handle Part000.render before after o p0
                  Part000_handle_framed Hd Hfail).
Qed.

Lemma loaded_session {E} (handle : Page → E → Page) timeCell
    (before after : list E) (o : FetchOutcome) (d : Dataset) (p0 : Page) :
  (∀ q e, framed q (handle q e)) → loadData o = inr d →
  data (foldl handle (settle (renderTable timeCell) o (foldl handle p0 before))
          after) = Some d.
Proof.
  intros Hh Ho.
  destruct (foldl_framed handle after
              (settle (renderTable timeCell) o (foldl handle p0 before)) Hh)
    as (Hd & _).
  rewrite Hd. unfold settle. rewrite Ho. by rewrite renderTable_data.
Qed.

(** C7.  Once the dataset is loaded and stored, it stays as stored: after
    any run of voice selections, each of which renders, the dataset in
    memory is the value the load gave.  [render] and the listeners return
    the dataset they found, in both variants. *)
Theorem dataset_never_mutated (o : FetchOutcome) (d : Dataset) :
  loadData o = inr d →
  (∀ doc p0 before after,
     AppJs.init doc = Some p0 →
     ∃ p, AppJs.session doc before o after = Some p ∧ data p = Some d)
  ∧ (∀ doc p0 before after,
       Part000.init doc = Some p0 →
       ∃ p, Part000.session doc before o after = Some p ∧ data p = Some d)
  ∧ (∀ q, data (AppJs.render q) = data q ∧ data (Part000.render q) = data q)
  ∧ (∀ q e, data (AppJs.handle q e) = data q)
  ∧ (∀ q e, data (Part000.handle q e) = data q).
Proof.
  intros Ho. split_and!.
  - intros doc p0 before after Hinit. unfold AppJs.session. rewrite Hinit.
    eexists. split; [done|].
    apply loaded_session; [apply AppJs_handle_framed|done].
  - intros doc p0 before after Hinit. unfold Part000.session. rewrite Hinit.
    eexists. split; [done|].
    apply loaded_session; [apply Part000_handle_framed|done].
  - intros q. split; apply renderTable_data.
  - intros q e. apply AppJs_handle_framed.
  - intros q e. apply Part000_handle_framed.
Qed.

(** ** The voice selector *)

Lemma classList_toggle_on token cl : token ∈ classList_toggle token true cl.
Proof.
  unfold classList_toggle. case_decide; [done|].
  apply elem_of_app. right. by left.
Qed.

Lemma classList_toggle_off token cl : token ∉ classList_toggle token false cl.
Proof.
  unfold classList_toggle. intros [Hne _]%list_elem_of_filter. by apply Hne.
Qed.

Lemma classList_toggle_other token force t cl :
  t ≠ token → t ∈ classList_toggle token force cl ↔ t ∈ cl.
Proof.
  intros Hne. unfold classList_toggle. destruct force.
  - case_decide; [done|]. rewrite elem_of_app, list_elem_of_singleton.
    split; [by intros [?|?]|by left].
  - rewrite list_elem_of_filter. split; [by intros [_ ?]|done].
Qed.

(** After both toggles of the controls, the class of the selected voice is
    on and the other is off. *)
Lemma indicator_toggled (passive : bool) cl :
  let v := if passive then "passive" else "active" in
  let cl' := classList_toggle "is-passive" passive
               (classList_toggle "is-active" (negb passive) cl) in
  indicator v ∈ cl' ∧ (indicator (otherVoice v) ∉ cl').
Proof.
  destruct passive; intros v cl'; subst v cl'.
  all: change (indicator "passive") with "is-passive".
  all: change (indicator "active") with "is-active".
  all: change (indicator (otherVoice "passive")) with "is-active".
  all: change (indicator (otherVoice "active")) with "is-passive".
  all: cbn [negb]; split.
  - apply classList_toggle_on.
  - rewrite classList_toggle_other by done. apply classList_toggle_off.
  - rewrite classList_toggle_other by done. apply classList_toggle_on.
  - apply classList_toggle_off.
Qed.

Lemma settle_voice timeCell o p :
  voice (settle (renderTable timeCell) o p) = voice p.
Proof.
  unfold settle. destruct (loadData o); [done|].
  by rewrite renderTable_voice.
Qed.

Lemma foldl_twoStates {E} (handle : Page → E → Page) (events : list E) p :
  (∀ q e, twoStates (handle q e)) → twoStates p →
  twoStates (foldl handle p events).
Proof.
  intros H. revert p. induction events as [|e events IH]; intros p Hp; [done|].
  simpl. apply IH, H.
Qed.

Lemma session_twoStates {E} (handle : Page → E → Page) timeCell
    (before after : list E) (o : FetchOutcome) (p0 : Page) :
  (∀ q e, twoStates (handle q e)) → twoStates p0 →
  twoStates (foldl handle (settle (renderTable timeCell) o (foldl handle p0 before))
               after).
Proof.
  intros H Hp0. apply foldl_twoStates; [done|].
  unfold twoStates. rewrite settle_voice. by apply foldl_twoStates.
Qed.

Lemma AppJs_handle_twoStates q e : twoStates (AppJs.handle q e).
Proof.
  destruct e as [[]]; unfold twoStates, AppJs.handle, AppJs.render;
    rewrite renderTable_voice; auto.
Qed.

Lemma Part000_handle_twoStates q e : twoStates (Part000.handle q e).
Proof.
  destruct e; unfold twoStates, Part000.handle, Part000.render;
    rewrite renderTable_voice; auto.
Qed.

(** C6.  The voice has the two states [active] and [passive]: it starts as
    [active] and is one of the two at every moment of a visit.  Every
    selection, from whatever state, sets the voice to the selected one,
    leaves on the controls the class of that voice and not the class of the
    other one, and renders the table anew from the stored dataset: the body
    then holds the rows for the selected voice, whatever it held before.
    No selection is refused: from every state each of the two voices can be
    selected.  It holds for the checkbox of app.js and for the two buttons
    of part_000. *)
Theorem selection_updates_and_renders (p : Page) :
  (∀ e, let v := match e with
                 | AppJs.Change checked => if checked then "passive" else "active"
                 end in
        let p' := AppJs.handle p e in
        voice p' = v
        ∧ (v = "active" ∨ v = "passive")
        ∧ indicator v ∈ classList p'
        ∧ (indicator (otherVoice v) ∉ classList p')
        ∧ ∀ d rows0, data p = Some d → tbody p = Some rows0 →
            tbody p' = Some (rowOf AppJs.timeCell v <$> tenses d))
  ∧ (∀ e, let v := match e with
                   | Part000.ClickActive => "active"
                   | Part000.ClickPassive => "passive"
                   end in
          let p' := Part000.handle p e in
          voice p' = v
          ∧ (v = "active" ∨ v = "passive")
          ∧ indicator v ∈ classList p'
          ∧ (indicator (otherVoice v) ∉ classList p')
          ∧ ∀ d rows0, data p = Some d → tbody p = Some rows0 →
              tbody p' = Some (rowOf (λ time, [Part000.renderTimeCell time]) v
                                 <$> tenses d))
  ∧ voice (AppJs.handle p (AppJs.Change false)) = "active"
  ∧ voice (AppJs.handle p (AppJs.Change true)) = "passive"
  ∧ voice (Part000.handle p Part000.ClickActive) = "active"
  ∧ voice (Part000.handle p Part000.ClickPassive) = "passive"
  ∧ (∀ doc p0 before o after,
       AppJs.init doc = Some p0 →
       voice p0 = "active"
       ∧ ∃ q, AppJs.session doc before o after = Some q ∧ twoStates q)
  ∧ (∀ doc p0 before o after,
       Part000.init doc = Some p0 →
       voice p0 = "active"
       ∧ ∃ q, Part000.session doc before o after = Some q ∧ twoStates q).
Proof.
  split_and!; try (by unfold AppJs.handle, Part000.handle, AppJs.render,
                     Part000.render; rewrite renderTable_voice).
  3:{ intros doc p0 before o after Hinit.
      destruct (AppJs_init_page doc p0 Hinit) as (_ & _ & Hv & _).
      split; [done|]. unfold AppJs.session. rewrite Hinit. eexists.
      split; [done|].
      apply session_twoStates; [apply AppJs_handle_twoStates|by left]. }
  3:{ intros doc p0 before o after Hinit.
      destruct (Part000_init_page doc p0 Hinit) as (_ & _ & Hv & _).
      split; [done|]. unfold Part000.session. rewrite Hinit. eexists.
      split; [done|].
      apply session_twoStates; [apply Part000_handle_twoStates|by left]. }
  - intros [checked] v p'. subst v p'. unfold AppJs.handle, AppJs.render.
    rewrite renderTable_voice, renderTable_classList.
    cbn [AppJs.updateToggleState setClassList setVoice voice classList].
    destruct (indicator_toggled checked (classList p)) as [Hon Hoff].
    split_and!; [done|by destruct checked; auto|done|done|].
    intros d rows0 Hd Ht.
    by erewrite renderTable_tbody.
  - intros e v p'. subst v p'.
    destruct e; unfold Part000.handle, Part000.render;
      rewrite renderTable_voice, renderTable_classList;
      cbn [Part000.updateControlsState setClassList setVoice voice classList].
    + destruct (indicator_toggled false (classList p)) as [Hon Hoff].
      split_and!; [done|by auto|done|done|].
      intros d rows0 Hd Ht. by erewrite renderTable_tbody.
    + destruct (indicator_toggled true (classList p)) as [Hon Hoff].
      split_and!; [done|by auto|done|done|].
      intros d rows0 Hd Ht. by erewrite renderTable_tbody.
Qed.

(** ** The two variants *)




Lemma textContent_cons tag cls c cs :
  textContent (Element tag cls (c :: cs))
  = textContent c +:+ textContent (Element tag cls cs).
Proof. reflexivity. Qed.




(** A tense name with a carriage return: the markup parser of app.js reads
    it as a line feed, the text node of part_000 keeps it, so the two time
    cells show different text. *)
Lemma variants_text_differs_on_carriage_return :
  let name := String CR "" in
  plainText name = false
  ∧ AppJs.timeCell name = [Element "div" "time-name" [Text (String LF "")]]
  ∧ Part000.renderTimeCell name
    = Element "div" "cell-content" [Element "div" "time-name" [Text name]]
  ∧ textContent (Element "td" "" (AppJs.timeCell name))
    ≠ textContent (Element "td" "" [Part000.renderTimeCell name]).
Proof.
  split_and!; [vm_compute; reflexivity..|].
  intros H. vm_compute in H. discriminate H.
Qed.

(** ** The sample, rendered *)

Example sample_active_cell :
  renderCellContent (Some presentSimple) "active"
  = Element "div" "cell-content"
      [Element "div" "cell-desc" [Text "Facts & habits"];
       Element "div" "cell-block"
         [Element "div" "formula formula--aff" [Text "S + V(s)"]];
       Element "div" "cell-block"
         [Element "div" "formula formula--neg" [Text "S + don't + V"]];
       Element "div" "cell-block" [Element "span" "muted" [Text "—"]];
       Element "div" "cell-block"
         [Element "div" "markers"
            [Element "span" "marker-chip" [Text "always"];
             Element "span" "marker-chip" [Text "usually"]]]].
Proof. vm_compute. reflexivity. Qed.

Example sample_passive_cell_text :
  textContent (renderCellContent (Some presentSimple) "passive")
  = "Facts & habitsS + am/is/are + V3—Am/Is/Are + S + V3?alwaysusually".
Proof. vm_compute. reflexivity. Qed.

Example sample_negative_markup :
  renderFormula (Some {| type := "Negative"; formula := Some "S + don't + V" |})
    "neg"
  = "<div class=" +:+ chr dq +:+ "formula formula--neg" +:+ chr dq
      +:+ ">S + don&#039;t + V</div>".
Proof. vm_compute. reflexivity. Qed.

Example sample_row_count :
  length <$> tbody (AppJs.render samplePage) = Some 2.
Proof. vm_compute. reflexivity. Qed.

Example sample_time_cells :
  AppJs.timeCell "Past <simple>"
  = [Element "div" "time-name" [Text "Past <simple>"]]
  ∧ Part000.renderTimeCell "Past <simple>"
    = Element "div" "cell-content"
        [Element "div" "time-name" [Text "Past <simple>"]].
Proof. split; vm_compute; reflexivity. Qed.

Example sample_nested_markup :
  parseMarkup ("a<b>c</b>d<i class=" +:+ chr dq +:+ "x" +:+ chr dq
                 +:+ "><u>e &amp; f</u>g</i>")
  = [Text "a"; Element "b" "" [Text "c"]; Text "d";
     Element "i" "x" [Element "u" "" [Text "e & f"]; Text "g"]].
Proof. vm_compute. reflexivity. Qed.

Example sample_http_error :
  errorText (showError {| errorName := "Error";
                          message := "HTTP 404 while fetching ./time-tenses.json" |}
               samplePage)
  = "Ошибка загрузки данных: HTTP 404 while fetching ./time-tenses.json"
  ∧ loadData (Responded false 404 (inr sampleDataset))
    = inl {| errorName := "Error";
             message := "HTTP 404 while fetching ./time-tenses.json" |}.
Proof. split; vm_compute; reflexivity. Qed.

(** The error line is not one constant text: a 404 and a 500 response show
    different lines, each the fixed prefix followed by the message. *)
Lemma errorLine_depends_on_error :
  ∃ e404 e500,
    loadData (Responded false 404 (inr sampleDataset)) = inl e404
    ∧ loadData (Responded false 500 (inr sampleDataset)) = inl e500
    ∧ errorLine e404
      = "Ошибка загрузки данных: HTTP 404 while fetching ./time-tenses.json"
    ∧ errorLine e500
      = "Ошибка загрузки данных: HTTP 500 while fetching ./time-tenses.json"
    ∧ errorLine e404 ≠ errorLine e500.
Proof.
  do 2 eexists. split_and!; [vm_compute; reflexivity..|].
  intros H. vm_compute in H. discriminate H.
Qed.

(** ** The claims at the sample *)

(** At the sample: two tenses, two rows. *)
Lemma render_one_row_per_tense_witness :
  wfDataset sampleDataset
  ∧ data samplePage = Some sampleDataset
  ∧ tbody samplePage = Some []
  ∧ ∃ rows, tbody (AppJs.render samplePage) = Some rows
            ∧ oneRowPerTense AppJs.timeCell "passive" sampleDataset rows.
Proof.
  assert (Hwf : wfDataset sampleDataset) by (by apply (bool_decide_unpack _)).
  split_and!; [exact Hwf|reflexivity|reflexivity|].
  exact (proj1 (render_one_row_per_tense samplePage sampleDataset []
                  Hwf eq_refl eq_refl)).
Defined.

(** At a 404 response, with a selection before and one after. *)
Lemma fetch_failure_shows_error_witness :
  fetchFailed (Responded false 404 (inr sampleDataset)) = true
  ∧ ∃ p0, AppJs.init sampleDocument = Some p0
    ∧ ∃ p, AppJs.session sampleDocument [AppJs.Change true]
             (Responded false 404 (inr sampleDataset)) [AppJs.Change false]
           = Some p
           ∧ failureShown (tbody p0) (Responded false 404 (inr sampleDataset)) p.
Proof.
  split; [reflexivity|]. eexists. split; [reflexivity|].
  destruct (proj1 (fetch_failure_shows_error
                     (Responded false 404 (inr sampleDataset)) eq_refl)
              sampleDocument _ [AppJs.Change true] [AppJs.Change false] eq_refl)
    as (p & Hs & _ & _ & Hshown & _).
  exists p. split; [exact Hs|exact Hshown].
Defined.

(** The two voices of the sample. *)
Lemma voice_changes_formulas_only_witness :
  data samplePage = Some sampleDataset
  ∧ tbody samplePage = Some []
  ∧ ∃ rowsA rowsP,
      tbody (AppJs.render (setVoice "active" samplePage)) = Some rowsA
      ∧ tbody (AppJs.render (setVoice "passive" samplePage)) = Some rowsP
      ∧ sameButFormulas sampleDataset rowsA rowsP.
Proof.
  split_and!; [reflexivity|reflexivity|].
  exact (proj1 (voice_changes_formulas_only samplePage sampleDataset []
                  eq_refl eq_refl)).
Defined.

(** At the sample: the passive voice has no negative pattern, the
    perfect aspect has a pattern without formula and no marker. *)
Lemma cell_shows_aspect_witness :
  ("passive" = "active" ∨ "passive" = "passive")
  ∧ ("Negative" ∉ type <$> structuresFor "passive" presentSimple)
  ∧ blockChildren "passive" presentSimple "Negative" "neg"
    = [Element "span" "muted" [Text "—"]]
  ∧ formula {| type := "Affirmative"; formula := None |} = None
  ∧ blockChildren "active" presentPerfect "Affirmative" "aff"
    = [Element "span" "muted" [Text "—"]]
  ∧ plainText "Am/Is/Are + S + V3?" = true
  ∧ blockChildren "passive" presentSimple "Question" "q"
    = [Element "div" "formula formula--q" [Text "Am/Is/Are + S + V3?"]]
  ∧ markers presentPerfect = Some []
  ∧ markerChips presentPerfect = [Element "span" "muted" [Text "—"]]
  ∧ descBlock presentSimple = [Element "div" "cell-desc" [Text "Facts & habits"]]
  ∧ descBlock presentPerfect = [].
Proof.
  assert (Hp : "passive" = "active" ∨ "passive" = "passive") by (right; reflexivity).
  assert (Ha : "active" = "active" ∨ "active" = "passive") by (left; reflexivity).
  assert (Hneg : "Negative" ∉ type <$> structuresFor "passive" presentSimple)
    by (by apply (bool_decide_unpack _)).
  destruct (cell_shows_aspect "passive" presentSimple Hp)
    as (_ & _ & Habs & _ & Hsome & _ & Hdesc & _).
  destruct (cell_shows_aspect "active" presentPerfect Ha)
    as (_ & _ & _ & Hnone & _ & Hmark & _ & Hnodesc).
  split_and!.
  - exact Hp.
  - exact Hneg.
  - refine (Habs "Negative" "neg" _ _ Hneg). vm_compute. reflexivity.
  - reflexivity.
  - refine (Hnone "Affirmative" "aff" _
              {| type := "Affirmative"; formula := None |} _ eq_refl eq_refl).
    vm_compute. reflexivity.
  - reflexivity.
  - refine (Hsome "Question" "q" _
              {| type := "Question"; formula := Some "Am/Is/Are + S + V3?" |}
              "Am/Is/Are + S + V3?" _ eq_refl eq_refl _ eq_refl);
      [|discriminate].
    split; [vm_compute; reflexivity|intros _; vm_compute; reflexivity].
  - reflexivity.
  - exact (Hmark (or_intror eq_refl)).
  - refine (Hdesc "Facts & habits" eq_refl _); discriminate.
  - exact (Hnodesc eq_refl).
Defined.

(** A formula of the sample, in a block of each kind. *)
Lemma escapeHtml_replaces_specials_witness :
  "neg" ∈ ["aff"; "neg"; "q"]
  ∧ plainText "S + don't + V" = true
  ∧ plainText "a < b" = true
  ∧ parseMarkup (escapeHtml "a < b") = [Text "a < b"]
  ∧ setInnerHTML
      (renderFormula (Some {| type := "Negative"; formula := Some "S + don't + V" |})
         "neg")
    = [Element "div" "formula formula--neg" [Text "S + don't + V"]].
Proof.
  assert (Hin : "neg" ∈ ["aff"; "neg"; "q"]) by (right; left).
  destruct (escapeHtml_replaces_specials "a < b")
    as (_ & _ & _ & _ & _ & Hread & _ & H).
  split_and!; [exact Hin|reflexivity|reflexivity|exact (Hread eq_refl)|].
  exact (H "Negative" "S"%char " + don't + V" "neg" Hin eq_refl).
Defined.

(** At a body that does not parse (part_000) and at a 500 response
    (app.js). *)
Lemma load_once_no_store_witness :
  let o := Responded true 200
             (inl {| errorName := "SyntaxError"; message := "Unexpected token" |}) in
  let o' := Responded false 500 (inr sampleDataset) in
  fetchFailed o = true
  ∧ fetchFailed o' = true
  ∧ is_Some (Part000.table sampleDocument000)
  ∧ is_Some (Part000.btnActive sampleDocument000)
  ∧ is_Some (Part000.btnPassive sampleDocument000)
  ∧ is_Some (Part000.errorSection sampleDocument000)
  ∧ is_Some (Part000.controls sampleDocument000)
  ∧ is_Some (AppJs.table sampleDocument)
  ∧ is_Some (AppJs.voiceToggle sampleDocument)
  ∧ is_Some (AppJs.errorSection sampleDocument)
  ∧ is_Some (AppJs.controls sampleDocument)
  ∧ (∃ p0, Part000.init sampleDocument000 = Some p0
      ∧ ∃ p, Part000.session sampleDocument000 [] o [Part000.ClickPassive] = Some p
             ∧ fetches p = [loadRequest]
             ∧ failureShown (tbody p0) o p)
  ∧ (∃ p0, AppJs.init sampleDocument = Some p0
      ∧ ∃ p, AppJs.session sampleDocument [AppJs.Change true] o'
               [AppJs.Change false] = Some p
             ∧ fetches p = [loadRequest]
             ∧ failureShown (tbody p0) o' p).
Proof.
  intros o o'.
  assert (HB1 : is_Some (Part000.table sampleDocument000)) by (eexists; reflexivity).
  assert (HB2 : is_Some (Part000.btnActive sampleDocument000))
    by (eexists; reflexivity).
  assert (HB3 : is_Some (Part000.btnPassive sampleDocument000))
    by (eexists; reflexivity).
  assert (HB4 : is_Some (Part000.errorSection sampleDocument000))
    by (eexists; reflexivity).
  assert (HB5 : is_Some (Part000.controls sampleDocument000))
    by (eexists; reflexivity).
  assert (HA1 : is_Some (AppJs.table sampleDocument)) by (eexists; reflexivity).
  assert (HA2 : is_Some (AppJs.voiceToggle sampleDocument)) by (eexists; reflexivity).
  assert (HA3 : is_Some (AppJs.errorSection sampleDocument))
    by (eexists; reflexivity).
  assert (HA4 : is_Some (AppJs.controls sampleDocument)) by (eexists; reflexivity).
  split_and!; [reflexivity|reflexivity|done..| |].
  - destruct (load_once_no_store o) as (_ & _ & _ & _ & _ & HB).
    destruct (HB sampleDocument000 [] [Part000.ClickPassive] HB1 HB2 HB3 HB4 HB5)
      as (p0 & Hinit & _ & _ & p & Hs & Hf & Hshown).
    exists p0. split; [exact Hinit|].
    exists p. split_and!; [exact Hs|exact Hf|exact (Hshown eq_refl)].
  - destruct (load_once_no_store o') as (_ & _ & _ & _ & HA & _).
    destruct (HA sampleDocument [AppJs.Change true] [AppJs.Change false]
                HA1 HA2 HA3 HA4)
      as (p0 & Hinit & _ & _ & p & Hs & Hf & Hshown).
    exists p0. split; [exact Hinit|].
    exists p. split_and!; [exact Hs|exact Hf|exact (Hshown eq_refl)].
Defined.

(** At the sample: the active voice is selected on a page that shows
    the passive one. *)
Lemma selection_updates_and_renders_witness :
  data samplePage = Some sampleDataset
  ∧ tbody samplePage = Some []
  ∧ tbody (AppJs.handle samplePage (AppJs.Change false))
    = Some (rowOf AppJs.timeCell "active" <$> tenses sampleDataset)
  ∧ ∃ p0, AppJs.init sampleDocument = Some p0 ∧ voice p0 = "active".
Proof.
  split_and!; [reflexivity|reflexivity| |].
  - destruct (proj1 (selection_updates_and_renders samplePage)
                (AppJs.Change false)) as (_ & _ & _ & _ & H).
    exact (H sampleDataset [] eq_refl eq_refl).
  - eexists. split; [reflexivity|].
    destruct (selection_updates_and_renders samplePage)
      as (_ & _ & _ & _ & _ & _ & H & _).
    exact (proj1 (H sampleDocument _ [] (Rejected {| errorName := "TypeError";
                                                      message := "Failed to fetch" |})
                    [] eq_refl)).
Defined.

(** At a successful load of the sample. *)
Lemma dataset_never_mutated_witness :
  loadData (Responded true 200 (inr sampleDataset)) = inr sampleDataset
  ∧ ∃ p0, AppJs.init sampleDocument = Some p0
    ∧ ∃ p, AppJs.session sampleDocument [AppJs.Change true]
             (Responded true 200 (inr sampleDataset))
             [AppJs.Change false; AppJs.Change true]
           = Some p
           ∧ data p = Some sampleDataset.
Proof.
  split; [reflexivity|]. eexists. split; [reflexivity|].
  exact (proj1 (dataset_never_mutated (Responded true 200 (inr sampleDataset))
                  sampleDataset eq_refl)
           sampleDocument _ [AppJs.Change true]
           [AppJs.Change false; AppJs.Change true] eq_refl).
Defined.


(** At two entries of distinct types. *)
Lemma indexByType_last_wins_witness :
  let aff := {| type := "Affirmative"; formula := Some "S + V(s)" |} in
  let neg := {| type := "Negative"; formula := Some "S + don't + V" |} in
  NoDup (type <$> [aff; neg])
  ∧ neg ∈ [aff; neg]
  ∧ type neg ≠ "__proto__"
  ∧ ownProperties (indexByType [aff; neg]) !! "Negative" = Some neg
  ∧ "Question" ∈ ["Affirmative"; "Negative"; "Question"]
  ∧ getProperty (indexByType [aff; neg]) "Question" = None.
Proof.
  intros aff neg.
  assert (Hnd : NoDup (type <$> [aff; neg])) by (by apply (bool_decide_unpack _)).
  assert (Hin : neg ∈ [aff; neg]) by (right; left).
  assert (Hne : type neg ≠ "__proto__") by discriminate.
  assert (Hq : "Question" ∈ ["Affirmative"; "Negative"; "Question"])
    by (right; right; left).
  destruct (indexByType_last_wins [aff; neg]) as (_ & _ & _ & _ & Hget & Huniq).
  split_and!; [exact Hnd|exact Hin|exact Hne| |exact Hq|].
  - exact (Huniq Hnd neg Hin Hne).
  - exact (Hget "Question" Hq).
Defined.


(** * Further properties of the code *)

(** ** [escapeHtml] *)

Lemma escapeEach_app s1 s2 :
  escapeEach (s1 +:+ s2) = escapeEach s1 +:+ escapeEach s2.
Proof.
  induction s1 as [|a s1 IH]; [done|].
  cbn [String.append escapeEach]. by rewrite IH, append_assoc.
Qed.

(** Escaping a concatenation is concatenating the escapes: a string can be
    escaped piece by piece. *)
Theorem escapeHtml_concat (s1 s2 : string) :
  escapeHtml (s1 +:+ s2) = escapeHtml s1 +:+ escapeHtml s2.
Proof. rewrite !escapeHtml_escapeEach. apply escapeEach_app. Qed.

Lemma entityOf_prefix_free a b x y :
  entityOf a +:+ x = entityOf b +:+ y → a = b ∧ x = y.
Proof.
  destruct (entityOf_cases a) as [[_ Ha]|[Ha ->]];
    destruct (entityOf_cases b) as [[_ Hb]|[Hb ->]].
  - destruct Ha as [[-> ->]|[[-> ->]|[[-> ->]|[[-> ->]|[-> ->]]]]];
      destruct Hb as [[-> ->]|[[-> ->]|[[-> ->]|[[-> ->]|[-> ->]]]]];
      cbn; intros H; by simplify_eq.
  - destruct Ha as [[-> ->]|[[-> ->]|[[-> ->]|[[-> ->]|[-> ->]]]]];
      cbn; intros H; injection H as <- _; discriminate Hb.
  - destruct Hb as [[-> ->]|[[-> ->]|[[-> ->]|[[-> ->]|[-> ->]]]]];
      cbn; intros H; injection H as -> _; discriminate Ha.
  - cbn. intros H. by simplify_eq.
Qed.

Lemma escapeEach_inj s1 s2 : escapeEach s1 = escapeEach s2 → s1 = s2.
Proof.
  revert s2. induction s1 as [|a s1 IH]; intros [|b s2]; cbn [escapeEach].
  - done.
  - destruct (entityOf_cases b) as [[_ Hb]|[_ ->]]; [|done].
    by destruct Hb as [[_ ->]|[[_ ->]|[[_ ->]|[[_ ->]|[_ ->]]]]].
  - destruct (entityOf_cases a) as [[_ Ha]|[_ ->]]; [|done].
    by destruct Ha as [[_ ->]|[[_ ->]|[[_ ->]|[[_ ->]|[_ ->]]]]].
  - intros [-> H]%entityOf_prefix_free. by rewrite (IH _ H).
Qed.

(** Distinct strings have distinct escapes: nothing of the text is lost. *)
Theorem escapeHtml_injective (s1 s2 : string) :
  s1 ≠ s2 → escapeHtml s1 ≠ escapeHtml s2.
Proof.
  intros Hne Heq. apply Hne, escapeEach_inj.
  by rewrite <- !escapeHtml_escapeEach.
Qed.

Lemma escapeHtml_injective_witness :
  "<" ≠ "&lt;" ∧ escapeHtml "<" ≠ escapeHtml "&lt;".
Proof.
  assert (H : "<" ≠ "&lt;") by discriminate.
  split; [exact H|exact (escapeHtml_injective "<" "&lt;" H)].
Defined.

Lemma length_append (s1 s2 : string) :
  String.length (s1 +:+ s2) = String.length s1 + String.length s2.
Proof. induction s1 as [|a s1 IH]; simpl; [done|by rewrite IH]. Qed.

Lemma length_entityOf a :
  (htmlSpecial a = false ∧ String.length (entityOf a) = 1)
  ∨ (htmlSpecial a = true ∧ 1 < String.length (entityOf a)).
Proof.
  destruct (entityOf_cases a) as [[Hsp Hs]|[Hn ->]]; [right|left; done].
  split; [done|].
  destruct Hs as [[_ ->]|[[_ ->]|[[_ ->]|[[_ ->]|[_ ->]]]]]; simpl; lia.
Qed.

Lemma length_escapeEach s :
  String.length s ≤ String.length (escapeEach s)
  ∧ (hasSpecial s = true → String.length s < String.length (escapeEach s)).
Proof.
  induction s as [|a s [IH1 IH2]]; [done|].
  cbn [escapeEach hasSpecial]. rewrite length_append. simpl String.length.
  destruct (length_entityOf a) as [[-> ->]|[-> Hlen]]; simpl.
  - split; [lia|]. intros H. specialize (IH2 H). lia.
  - split; [lia|]. intros _. lia.
Qed.

(** [escapeHtml] leaves a string as it is exactly when the string has none
    of the five characters, and it never shortens a string. *)
Theorem escapeHtml_fixes_plain_only (str : string) :
  (escapeHtml str = str ↔ hasSpecial str = false)
  ∧ String.length str ≤ String.length (escapeHtml str).
Proof.
  rewrite escapeHtml_escapeEach.
  destruct (length_escapeEach str) as [Hle Hlt]. split; [|done]. split.
  - intros Heq. destruct (hasSpecial str) eqn:Hsp; [|done].
    specialize (Hlt eq_refl). rewrite Heq in Hlt. lia.
  - clear. induction str as [|a s IH]; [done|].
    cbn [hasSpecial escapeEach]. intros [Ha Hs]%orb_false_elim.
    destruct (entityOf_cases a) as [[Hsp _]|[_ ->]]; [congruence|].
    by rewrite IH.
Qed.

Lemma escapeHtml_fixes_plain_only_witness :
  hasSpecial "S + V3" = false ∧ escapeHtml "S + V3" = "S + V3".
Proof.
  split; [reflexivity|].
  exact (proj2 (proj1 (escapeHtml_fixes_plain_only "S + V3")) eq_refl).
Defined.

(** ** [render] and the listeners *)

Lemma Page_eq (p q : Page) :
  voice p = voice q → data p = data q → classList p = classList q →
  errorHidden p = errorHidden q → errorText p = errorText q →
  tbody p = tbody q → fetches p = fetches q → p = q.
Proof. destruct p, q; simpl; congruence. Qed.

(** What the table body is after [render], in every case. *)
Lemma renderTable_tbody_cases timeCell p :
  tbody (renderTable timeCell p)
  = match data p, tbody p with
    | Some d, Some _ => Some (rowOf timeCell (voice p) <$> tenses d)
    | _, _ => tbody p
    end.
Proof.
  destruct (data p) as [d|] eqn:Hd.
  - destruct (tbody p) as [rows0|] eqn:Ht.
    + by erewrite renderTable_tbody.
    + unfold renderTable. by rewrite Hd, Ht.
  - by rewrite renderTable_no_data.
Qed.

Lemma renderTable_idempotent timeCell p :
  renderTable timeCell (renderTable timeCell p) = renderTable timeCell p.
Proof.
  apply Page_eq;
    rewrite ?renderTable_voice, ?renderTable_data, ?renderTable_classList,
      ?renderTable_fetches, ?(proj1 (renderTable_error _ _)),
      ?(proj2 (renderTable_error _ _)); try done.
  rewrite !renderTable_tbody_cases, renderTable_voice, renderTable_data.
  by destruct (data p), (tbody p).
Qed.

(** Rendering twice is rendering once: the rows do not pile up, since
    [render] empties the table body before it appends; and with a dataset
    stored, what the body held before has no part in the result. *)
Theorem render_idempotent (p : Page) (d : Dataset) (rows rows' : list Node) :
  AppJs.render (AppJs.render p) = AppJs.render p
  ∧ Part000.render (Part000.render p) = Part000.render p
  ∧ tbody (AppJs.render (setTbody rows (setData d p)))
    = tbody (AppJs.render (setTbody rows' (setData d p)))
  ∧ tbody (Part000.render (setTbody rows (setData d p)))
    = tbody (Part000.render (setTbody rows' (setData d p))).
Proof.
  split_and!; try apply renderTable_idempotent.
  - unfold AppJs.render. by rewrite !renderTable_tbody_cases.
  - unfold Part000.render. by rewrite !renderTable_tbody_cases.
Qed.

Lemma filter_all {A} (P : A → Prop) `{!∀ x, Decision (P x)} (l : list A) :
  Forall P l → filter P l = l.
Proof.
  induction 1 as [|x l Hx _ IH]; [done|].
  by rewrite filter_cons, decide_True, IH.
Qed.

Lemma classList_toggle_idempotent token force cl :
  classList_toggle token force (classList_toggle token force cl)
  = classList_toggle token force cl.
Proof.
  destruct force.
  - unfold classList_toggle at 1. rewrite decide_True; [done|].
    apply classList_toggle_on.
  - unfold classList_toggle. apply filter_all, Forall_forall.
    by intros t [? _]%list_elem_of_filter.
Qed.

(** A toggle of one token passes through a toggle of another token. *)
Lemma classList_toggle_settled t1 f1 t2 f2 cl :
  t1 ≠ t2 →
  classList_toggle t1 f1 (classList_toggle t2 f2 (classList_toggle t1 f1 cl))
  = classList_toggle t2 f2 (classList_toggle t1 f1 cl).
Proof.
  intros Hne. set (cl1 := classList_toggle t1 f1 cl).
  destruct f1.
  - unfold classList_toggle at 1. rewrite decide_True; [done|].
    apply classList_toggle_other; [done|]. apply classList_toggle_on.
  - unfold classList_toggle at 1. apply filter_all, Forall_forall.
    intros t Ht ->. apply classList_toggle_other in Ht; [|done].
    by apply classList_toggle_off in Ht.
Qed.

Lemma toggles_idempotent ta fa tp fp cl :
  ta ≠ tp →
  let once := classList_toggle tp fp (classList_toggle ta fa cl) in
  classList_toggle tp fp (classList_toggle ta fa once) = once.
Proof.
  intros Hne once. subst once.
  rewrite (classList_toggle_settled ta fa tp fp cl Hne).
  apply classList_toggle_idempotent.
Qed.

Lemma AppJs_handle_fields p e :
  let v := selectedByChange e in
  let passive := bool_decide (v = "passive") in
  voice (AppJs.handle p e) = v
  ∧ data (AppJs.handle p e) = data p
  ∧ classList (AppJs.handle p e)
    = classList_toggle "is-passive" passive
        (classList_toggle "is-active" (negb passive) (classList p))
  ∧ errorHidden (AppJs.handle p e) = errorHidden p
  ∧ errorText (AppJs.handle p e) = errorText p
  ∧ fetches (AppJs.handle p e) = fetches p
  ∧ tbody (AppJs.handle p e)
    = match data p, tbody p with
      | Some d, Some _ => Some (rowOf AppJs.timeCell v <$> tenses d)
      | _, _ => tbody p
      end.
Proof.
  destruct e as [checked]. unfold AppJs.handle, AppJs.render.
  rewrite renderTable_voice, renderTable_data, renderTable_classList,
    renderTable_fetches, renderTable_tbody_cases,
    (proj1 (renderTable_error _ _)), (proj2 (renderTable_error _ _)).
  by destruct checked.
Qed.

Lemma Part000_handle_fields p e :
  let v := selectedByClick e in
  let passive := bool_decide (v = "passive") in
  voice (Part000.handle p e) = v
  ∧ data (Part000.handle p e) = data p
  ∧ classList (Part000.handle p e)
    = classList_toggle "is-passive" passive
        (classList_toggle "is-active" (negb passive) (classList p))
  ∧ errorHidden (Part000.handle p e) = errorHidden p
  ∧ errorText (Part000.handle p e) = errorText p
  ∧ fetches (Part000.handle p e) = fetches p
  ∧ tbody (Part000.handle p e)
    = match data p, tbody p with
      | Some d, Some _ =>
          Some (rowOf (λ time, [Part000.renderTimeCell time]) v <$> tenses d)
      | _, _ => tbody p
      end.
Proof.
  unfold Part000.handle, Part000.render.
  destruct e;
    rewrite renderTable_voice, renderTable_data, renderTable_classList,
      renderTable_fetches, renderTable_tbody_cases,
      (proj1 (renderTable_error _ _)), (proj2 (renderTable_error _ _));
    done.
Qed.

(** Selecting again the voice that was just selected changes nothing:
    neither the classes of the controls nor the rows. *)
Theorem selection_idempotent (p : Page) :
  (∀ e, AppJs.handle (AppJs.handle p e) e = AppJs.handle p e)
  ∧ (∀ e, Part000.handle (Part000.handle p e) e = Part000.handle p e).
Proof.
  split; intros e.
  - destruct (AppJs_handle_fields p e) as (Hv & Hd & Hc & Hh & Ht & Hf & Hb).
    destruct (AppJs_handle_fields (AppJs.handle p e) e)
      as (Hv' & Hd' & Hc' & Hh' & Ht' & Hf' & Hb').
    apply Page_eq; try congruence.
    + rewrite Hc', Hc. by apply toggles_idempotent.
    + rewrite Hb', Hd, Hb. by destruct (data p), (tbody p).
  - destruct (Part000_handle_fields p e) as (Hv & Hd & Hc & Hh & Ht & Hf & Hb).
    destruct (Part000_handle_fields (Part000.handle p e) e)
      as (Hv' & Hd' & Hc' & Hh' & Ht' & Hf' & Hb').
    apply Page_eq; try congruence.
    + rewrite Hc', Hc. by apply toggles_idempotent.
    + rewrite Hb', Hd, Hb. by destruct (data p), (tbody p).
Qed.

(** A selection touches no class of the controls but [is-active] and
    [is-passive]: every other class is there after it exactly when it was
    there before. *)
Theorem selection_keeps_other_classes (p : Page) (t : string) :
  t ≠ "is-active" → t ≠ "is-passive" →
  (∀ e, t ∈ classList (AppJs.handle p e) ↔ t ∈ classList p)
  ∧ (∀ e, t ∈ classList (Part000.handle p e) ↔ t ∈ classList p).
Proof.
  intros Ha Hp. split; intros e.
  - destruct (AppJs_handle_fields p e) as (_ & _ & -> & _).
    by rewrite !classList_toggle_other.
  - destruct (Part000_handle_fields p e) as (_ & _ & -> & _).
    by rewrite !classList_toggle_other.
Qed.

Lemma selection_keeps_other_classes_witness :
  "controls" ≠ "is-active"
  ∧ "controls" ≠ "is-passive"
  ∧ "controls" ∈ classList (AppJs.handle samplePage (AppJs.Change false)).
Proof.
  assert (Ha : "controls" ≠ "is-active") by discriminate.
  assert (Hp : "controls" ≠ "is-passive") by discriminate.
  split_and!; [exact Ha|exact Hp|].
  apply (proj1 (selection_keeps_other_classes samplePage "controls" Ha Hp)
           (AppJs.Change false)).
  left.
Defined.

(** ** Startup *)

(** At startup the voice is [active] in both variants.  In app.js the
    classes of the controls follow the checkbox, not the voice: on a
    document whose checkbox is checked the controls start as [is-passive]
    while the voice, and the table once loaded, are the active ones.  In
    part_000 the controls always start as [is-active]. *)
Theorem startup_indicator :
  (∀ doc p0 checked,
     AppJs.init doc = Some p0 → AppJs.voiceToggle doc = Some checked →
     voice p0 = "active"
     ∧ indicator (if checked then "passive" else "active") ∈ classList p0
     ∧ (indicator (if checked then "active" else "passive") ∉ classList p0))
  ∧ (∀ doc p0,
       Part000.init doc = Some p0 →
       voice p0 = "active"
       ∧ indicator "active" ∈ classList p0
       ∧ (indicator "passive" ∉ classList p0)).
Proof.
  split.
  - intros [[tb|] [chk|] [[h t]|] [cl|]] p0 checked Hinit Hchk;
      unfold AppJs.init in Hinit; simplify_eq/=.
    split; [done|].
    destruct (indicator_toggled checked cl) as [Hon Hoff].
    by destruct checked.
  - intros [[tb|] [[]|] [[]|] [[h t]|] [cl|]] p0 Hinit;
      unfold Part000.init in Hinit; simplify_eq/=.
    split; [done|]. apply (indicator_toggled false cl).
Qed.

Lemma startup_indicator_witness :
  let doc := {| AppJs.table := Some (Some []); AppJs.voiceToggle := Some true;
                AppJs.errorSection := Some (true, "");
                AppJs.controls := Some ["controls"] |} in
  ∃ p0, AppJs.init doc = Some p0
        ∧ AppJs.voiceToggle doc = Some true
        ∧ voice p0 = "active"
        ∧ "is-passive" ∈ classList p0.
Proof.
  intros doc. eexists. split; [reflexivity|]. split; [reflexivity|].
  destruct (proj1 startup_indicator doc _ true eq_refl eq_refl)
    as (Hv & Hon & _).
  split; [exact Hv|exact Hon].
Defined.

(** ** A whole visit *)

Section Visit.

Context {E : Type}.
Variables (handle : Page → E → Page) (selected : E → string)
          (timeCell : string → list Node).

Hypothesis handle_voice : ∀ p e, voice (handle p e) = selected e.
Hypothesis handle_framed : ∀ p e, framed p (handle p e).
Hypothesis handle_tbody : ∀ p e,
  tbody (handle p e)
  = match data p, tbody p with
    | Some d, Some _ => Some (rowOf timeCell (selected e) <$> tenses d)
    | _, _ => tbody p
    end.

Lemma run_voice p events :
  voice (foldl handle p events) = lastSelected (voice p) (selected <$> events).
Proof.
  revert p. induction events as [|e events IH]; intros p; [done|].
  cbn [foldl]. rewrite IH, handle_voice. unfold lastSelected.
  rewrite fmap_cons, last_cons. by destruct (last _).
Qed.

Lemma run_upToDate d p events :
  upToDate timeCell d p → upToDate timeCell d (foldl handle p events).
Proof.
  revert p. induction events as [|e events IH]; intros p [Hd Ht]; [done|].
  cbn [foldl]. apply IH. split.
  - by rewrite (proj1 (handle_framed p e)).
  - by rewrite handle_tbody, handle_voice, Hd, Ht.
Qed.

Lemma run_no_tbody p events :
  tbody p = None → tbody (foldl handle p events) = None.
Proof.
  revert p. induction events as [|e events IH]; intros p Ht; [done|].
  cbn [foldl]. apply IH. rewrite handle_tbody, Ht. by destruct (data p).
Qed.

Lemma run_is_tbody p events :
  is_Some (tbody p) → is_Some (tbody (foldl handle p events)).
Proof.
  revert p. induction events as [|e events IH]; intros p Ht; [done|].
  cbn [foldl]. apply IH. rewrite handle_tbody.
  destruct Ht as [rows ->]. by destruct (data p).
Qed.

Lemma visit_upToDate p0 before after o d :
  is_Some (tbody p0) → loadData o = inr d →
  let p := foldl handle (settle (renderTable timeCell) o (foldl handle p0 before))
             after in
  upToDate timeCell d p
  ∧ voice p = lastSelected (voice p0) (selected <$> before ++ after).
Proof.
  intros Ht Ho p. subst p. split.
  - apply run_upToDate. unfold settle. rewrite Ho.
    destruct (run_is_tbody p0 before Ht) as [rows Hrows].
    split; [by rewrite renderTable_data|].
    rewrite renderTable_tbody_cases, renderTable_voice.
    cbn [setData data tbody voice]. by rewrite Hrows.
  - rewrite run_voice, settle_voice, run_voice, fmap_app.
    unfold lastSelected. rewrite last_app. by destruct (last (selected <$> after)).
Qed.

Lemma visit_no_tbody p0 before after o :
  tbody p0 = None →
  tbody (foldl handle (settle (renderTable timeCell) o (foldl handle p0 before))
           after) = None.
Proof.
  intros Ht. apply run_no_tbody. unfold settle.
  pose proof (run_no_tbody p0 before Ht) as Hb.
  destruct (loadData o) as [err|d]; [done|].
  rewrite renderTable_tbody_cases. cbn [setData data tbody]. by rewrite Hb.
Qed.

Lemma visit_success_error p0 before after o d :
  loadData o = inr d →
  let p := foldl handle (settle (renderTable timeCell) o (foldl handle p0 before))
             after in
  errorHidden p = errorHidden p0 ∧ errorText p = errorText p0.
Proof.
  intros Ho p. subst p.
  destruct (foldl_framed handle before p0 handle_framed) as (_ & _ & Hh1 & Ht1 & _).
  destruct (foldl_framed handle after
              (settle (renderTable timeCell) o (foldl handle p0 before))
              handle_framed) as (_ & _ & Hh2 & Ht2 & _).
  rewrite Hh2, Ht2. unfold settle. rewrite Ho.
  rewrite (proj1 (renderTable_error _ _)), (proj2 (renderTable_error _ _)).
  done.
Qed.

End Visit.

Lemma AppJs_handle_voice p e : voice (AppJs.handle p e) = selectedByChange e.
Proof. apply AppJs_handle_fields. Qed.

Lemma AppJs_handle_tbody p e :
  tbody (AppJs.handle p e)
  = match data p, tbody p with
    | Some d, Some _ => Some (rowOf AppJs.timeCell (selectedByChange e) <$> tenses d)
    | _, _ => tbody p
    end.
Proof. apply AppJs_handle_fields. Qed.

Lemma Part000_handle_voice p e : voice (Part000.handle p e) = selectedByClick e.
Proof. apply Part000_handle_fields. Qed.

Lemma Part000_handle_tbody p e :
  tbody (Part000.handle p e)
  = match data p, tbody p with
    | Some d, Some _ =>
        Some (rowOf (λ time, [Part000.renderTimeCell time]) (selectedByClick e)
                <$> tenses d)
    | _, _ => tbody p
    end.
Proof. apply Part000_handle_fields. Qed.

(** After a successful load, whatever was selected before and after it,
    the voice is the one selected last (the active one when nothing was
    selected) and the table body holds the rows of the loaded dataset for
    that voice: a selection made while the data was still loading is
    honoured when the data arrives. *)
Theorem table_follows_last_selection (o : FetchOutcome) (d : Dataset) :
  loadData o = inr d →
  (∀ doc p0 rows0 before after,
     AppJs.init doc = Some p0 → tbody p0 = Some rows0 →
     ∃ p, AppJs.session doc before o after = Some p
          ∧ voice p = lastSelected "active" (selectedByChange <$> before ++ after)
          ∧ tbody p = Some (rowOf AppJs.timeCell (voice p) <$> tenses d))
  ∧ (∀ doc p0 rows0 before after,
       Part000.init doc = Some p0 → tbody p0 = Some rows0 →
       ∃ p, Part000.session doc before o after = Some p
            ∧ voice p = lastSelected "active" (selectedByClick <$> before ++ after)
            ∧ tbody p
              = Some (rowOf (λ time, [Part000.renderTimeCell time]) (voice p)
                        <$> tenses d)).
Proof.
  intros Ho. split.
  - intros doc p0 rows0 before after Hinit Ht.
    destruct (AppJs_init_page doc p0 Hinit) as (_ & _ & Hv & _).
    unfold AppJs.session. rewrite Hinit. eexists. split; [done|].
    destruct (visit_upToDate AppJs.handle selectedByChange AppJs.timeCell
                AppJs_handle_voice AppJs_handle_framed AppJs_handle_tbody
                p0 before after o d) as [[_ Hrows] Hvoice]; [by eexists|done|].
    rewrite Hv in Hvoice. by split.
  - intros doc p0 rows0 before after Hinit Ht.
    destruct (Part000_init_page doc p0 Hinit) as (_ & _ & Hv & _).
    unfold Part000.session. rewrite Hinit. eexists. split; [done|].
    destruct (visit_upToDate Part000.handle selectedByClick
                (λ time, [Part000.renderTimeCell time])
                Part000_handle_voice Part000_handle_framed Part000_handle_tbody
                p0 before after o d) as [[_ Hrows] Hvoice]; [by eexists|done|].
    rewrite Hv in Hvoice. by split.
Qed.

Lemma table_follows_last_selection_witness :
  let o := Responded true 200 (inr sampleDataset) in
  loadData o = inr sampleDataset
  ∧ ∃ p0, AppJs.init sampleDocument = Some p0
    ∧ tbody p0 = Some []
    ∧ ∃ p, AppJs.session sampleDocument [AppJs.Change true] o [] = Some p
           ∧ voice p = "passive"
           ∧ tbody p = Some (rowOf AppJs.timeCell (voice p) <$> tenses sampleDataset).
Proof.
  intros o. split; [reflexivity|]. eexists. split; [reflexivity|].
  split; [reflexivity|].
  exact (proj1 (table_follows_last_selection o sampleDataset eq_refl)
           sampleDocument _ [] [AppJs.Change true] [] eq_refl eq_refl).
Defined.

(** On a table that has no [tbody], nothing is ever rendered: however the
    load ends and whatever is selected, the page still has no table body. *)
Theorem no_tbody_no_rows (o : FetchOutcome) :
  (∀ doc p0 before after,
     AppJs.init doc = Some p0 → AppJs.table doc = Some None →
     ∃ p, AppJs.session doc before o after = Some p ∧ tbody p = None)
  ∧ (∀ doc p0 before after,
       Part000.init doc = Some p0 → Part000.table doc = Some None →
       ∃ p, Part000.session doc before o after = Some p ∧ tbody p = None).
Proof.
  split.
  - intros doc p0 before after Hinit Htab.
    destruct (AppJs_init_page doc p0 Hinit) as (_ & _ & _ & Htb).
    unfold AppJs.session. rewrite Hinit. eexists. split; [done|].
    apply (visit_no_tbody AppJs.handle selectedByChange AppJs.timeCell
             AppJs_handle_tbody). congruence.
  - intros doc p0 before after Hinit Htab.
    destruct (Part000_init_page doc p0 Hinit) as (_ & _ & _ & Htb).
    unfold Part000.session. rewrite Hinit. eexists. split; [done|].
    apply (visit_no_tbody Part000.handle selectedByClick
             (λ time, [Part000.renderTimeCell time]) Part000_handle_tbody).
    congruence.
Qed.

Lemma no_tbody_no_rows_witness :
  let doc := {| AppJs.table := Some None; AppJs.voiceToggle := Some false;
                AppJs.errorSection := Some (true, "");
                AppJs.controls := Some ["controls"] |} in
  let o := Responded true 200 (inr sampleDataset) in
  ∃ p0, AppJs.init doc = Some p0
    ∧ AppJs.table doc = Some None
    ∧ ∃ p, AppJs.session doc [] o [AppJs.Change true] = Some p ∧ tbody p = None.
Proof.
  intros doc o. eexists. split; [reflexivity|]. split; [reflexivity|].
  exact (proj1 (no_tbody_no_rows o) doc _ [] [AppJs.Change true]
           eq_refl eq_refl).
Defined.

(** A successful load leaves the error section as the document had it:
    [showError] runs on a failed load only. *)
Theorem success_leaves_error_section (o : FetchOutcome) (d : Dataset) :
  loadData o = inr d →
  (∀ doc p0 before after,
     AppJs.init doc = Some p0 →
     ∃ p, AppJs.session doc before o after = Some p
          ∧ AppJs.errorSection doc = Some (errorHidden p, errorText p))
  ∧ (∀ doc p0 before after,
       Part000.init doc = Some p0 →
       ∃ p, Part000.session doc before o after = Some p
            ∧ Part000.errorSection doc = Some (errorHidden p, errorText p)).
Proof.
  intros Ho. split.
  - intros doc p0 before after Hinit.
    unfold AppJs.session, AppJs.render. rewrite Hinit. eexists. split; [done|].
    destruct (visit_success_error AppJs.handle AppJs.timeCell
                AppJs_handle_framed p0 before after o d Ho) as [-> ->].
    destruct doc as [[tb|] [chk|] [[h t]|] [cl|]];
      unfold AppJs.init in Hinit; by simplify_eq/=.
  - intros doc p0 before after Hinit.
    unfold Part000.session, Part000.render. rewrite Hinit. eexists.
    split; [done|].
    destruct (visit_success_error Part000.handle
                (λ time, [Part000.renderTimeCell time])
                Part000_handle_framed p0 before after o d Ho) as [-> ->].
    destruct doc as [[tb|] [[]|] [[]|] [[h t]|] [cl|]];
      unfold Part000.init in Hinit; by simplify_eq/=.
Qed.

Lemma success_leaves_error_section_witness :
  let o := Responded true 200 (inr sampleDataset) in
  loadData o = inr sampleDataset
  ∧ ∃ p0, AppJs.init sampleDocument = Some p0
    ∧ ∃ p, AppJs.session sampleDocument [] o [AppJs.Change true] = Some p
           ∧ errorHidden p = true.
Proof.
  intros o. split; [reflexivity|]. eexists. split; [reflexivity|].
  destruct (proj1 (success_leaves_error_section o sampleDataset eq_refl)
              sampleDocument _ [] [AppJs.Change true] eq_refl) as (p & Hs & He).
  exists p. split; [exact Hs|]. by injection He.
Defined.

(** ** The two variants, event by event *)

Lemma agreeButRows_refl p : agreeButRows p p.
Proof. by unfold agreeButRows. Qed.

Lemma asClick_selected e : selectedByClick (asClick e) = selectedByChange e.
Proof. by destruct e as [[]]. Qed.

Lemma agreeButRows_handle p q e :
  agreeButRows p q →
  agreeButRows (AppJs.handle p e) (Part000.handle q (asClick e)).
Proof.
  intros (Hv & Hd & Hc & Hh & Ht & Hf & Hlen & Hb).
  destruct (AppJs_handle_fields p e) as (Hv1 & Hd1 & Hc1 & Hh1 & Ht1 & Hf1 & Hb1).
  destruct (Part000_handle_fields q (asClick e))
    as (Hv2 & Hd2 & Hc2 & Hh2 & Ht2 & Hf2 & Hb2).
  rewrite asClick_selected in *.
  unfold agreeButRows. split_and!; try congruence.
  - rewrite Hb1, Hb2, <- Hd.
    destruct (data p), (tbody p), (tbody q); simplify_eq/=;
      rewrite ?length_fmap; congruence.
  - intros Hn. rewrite Hd1 in Hn. rewrite Hb1, Hb2, <- Hd, Hn. by apply Hb.
Qed.

Lemma agreeButRows_settle o p q :
  agreeButRows p q →
  agreeButRows (settle AppJs.render o p) (settle Part000.render o q).
Proof.
  intros (Hv & Hd & Hc & Hh & Ht & Hf & Hlen & Hb). unfold settle.
  destruct (loadData o) as [err|d].
  - unfold agreeButRows. cbn. split_and!; try congruence; done.
  - unfold AppJs.render, Part000.render, agreeButRows.
    rewrite !renderTable_voice, !renderTable_data, !renderTable_classList,
      !renderTable_fetches, !renderTable_tbody_cases,
      !(proj1 (renderTable_error _ _)), !(proj2 (renderTable_error _ _)).
    cbn. split_and!; try congruence.
    destruct (tbody p), (tbody q); simplify_eq/=;
      rewrite ?length_fmap; congruence.
Qed.

Lemma agreeButRows_run p q events :
  agreeButRows p q →
  agreeButRows (foldl AppJs.handle p events)
    (foldl Part000.handle q (asClick <$> events)).
Proof.
  revert p q. induction events as [|e events IH]; intros p q H; [done|].
  cbn. by apply IH, agreeButRows_handle.
Qed.

(** The checkbox of app.js and the two buttons of part_000 drive the same
    page: from a document whose checkbox is unchecked, a visit to app.js and
    the visit to part_000 with the corresponding clicks end with the same
    voice, dataset, classes of the controls, error section and requests,
    and with as many rows; they differ in what the rows hold only. *)
Theorem variants_agree_event_by_event (doc : AppJs.Document)
    (before after : list AppJs.UserEvent) (o : FetchOutcome) :
  AppJs.voiceToggle doc = Some false →
  match AppJs.session doc before o after,
        Part000.session (asButtons doc) (asClick <$> before) o (asClick <$> after)
  with
  | Some p, Some q => agreeButRows p q
  | None, None => True
  | _, _ => False
  end.
Proof.
  intros Hchk. unfold AppJs.session, Part000.session.
  destruct doc as [[tb|] [chk|] [[h t]|] [cl|]];
    unfold AppJs.init, Part000.init; simplify_eq/=; try done.
  apply agreeButRows_run, agreeButRows_settle, agreeButRows_run.
  apply agreeButRows_refl.
Qed.

Lemma variants_agree_event_by_event_witness :
  let o := Responded true 200 (inr sampleDataset) in
  AppJs.voiceToggle sampleDocument = Some false
  ∧ ∃ p q,
      AppJs.session sampleDocument [] o [AppJs.Change true] = Some p
      ∧ Part000.session (asButtons sampleDocument) [] o [Part000.ClickPassive]
        = Some q
      ∧ agreeButRows p q.
Proof.
  intros o. split; [reflexivity|]. do 2 eexists.
  split; [reflexivity|]. split; [reflexivity|].
  exact (variants_agree_event_by_event sampleDocument [] [AppJs.Change true] o
           eq_refl).
Defined.

(** ** Rows and cells *)

Lemma aspectNamed_withKnownAspects c t :
  c ∈ columnOrder → aspectNamed c (withKnownAspects t) = aspectNamed c t.
Proof.
  intros Hc. unfold aspectNamed, withKnownAspects. cbn [aspects]. f_equal.
  rewrite list_filter_filter. apply list_filter_iff.
  intros a. split; [by intros [? _]|]. intros Ha. split; [done|]. by rewrite Ha.
Qed.

(** An aspect whose name is not one of the four columns has no part in the
    row: the row is the one of the tense without such aspects.  A tense
    without aspects gives four placeholder cells. *)
Theorem renderRow_ignores_unknown_aspects (timeCell : string → list Node)
    (voiceKey : string) (t : Tense) :
  renderRow timeCell voiceKey t = renderRow timeCell voiceKey (withKnownAspects t)
  ∧ renderRow timeCell voiceKey {| time := time t; aspects := [] |}
    = Element "tr" ""
        (Element "td" "" (timeCell (time t))
           :: replicate 4
                (Element "td" ""
                   [Element "div" "cell-content"
                      [Element "span" "muted" [Text "—"]]])).
Proof.
  split; [|done].
  rewrite !renderRow_rowOf. unfold rowOf, aspectCell.
  rewrite !aspectNamed_withKnownAspects by (unfold columnOrder; set_solver).
  done.
Qed.

Lemma textContent_app tag cls l1 l2 :
  textContent (Element tag cls (l1 ++ l2))
  = textContent (Element tag cls l1) +:+ textContent (Element tag cls l2).
Proof.
  induction l1 as [|c l1 IH]; [done|].
  rewrite <- app_comm_cons, !textContent_cons, IH. by rewrite append_assoc.
Qed.

Lemma append_empty_l (s1 s2 : string) : s1 +:+ s2 = "" → s1 = "".
Proof. by destruct s1. Qed.

Lemma append_empty_r (s1 s2 : string) : s1 +:+ s2 = "" → s2 = "".
Proof. by destruct s1. Qed.

(** [renderMarkers] never builds an empty block: it holds one chip per
    marker, in the order of the list, and the glyph alone when the list is
    empty; so the block has as many children as markers, and one for none. *)
Theorem renderMarkers_chips (markers : list string) :
  renderMarkers markers
  = Element "div" "markers"
      (match markers with
       | [] => [Element "span" "muted" [Text "—"]]
       | _ => markerChip <$> markers
       end)
  ∧ ∃ children, renderMarkers markers = Element "div" "markers" children
                ∧ length children = max 1 (length markers).
Proof.
  assert (H : renderMarkers markers
              = Element "div" "markers"
                  (match markers with
                   | [] => [Element "span" "muted" [Text "—"]]
                   | _ => markerChip <$> markers
                   end)).
  { unfold renderMarkers. rewrite foldl_snoc_map. by destruct markers. }
  split; [exact H|]. eexists. split; [exact H|].
  destruct markers as [|m ms]; [done|]. rewrite length_fmap. simpl. lia.
Qed.

Lemma formulaNode_text v a ty cls : textContent (formulaNode v a ty cls) ≠ "".
Proof.
  unfold formulaNode. by destruct (last _) as [[t [[|c r]|]]|].
Qed.

(** No aspect cell is blank: for the two voices and formulas of plain text
    (no U+0000, no carriage return), whatever the aspect holds or lacks,
    the cell shows some text, a glyph at least. *)
Theorem cell_never_blank (aspect : option Aspect) (voiceKey : string) :
  voiceKey = "active" ∨ voiceKey = "passive" →
  (∀ a, aspect = Some a → plainFormulas voiceKey a) →
  textContent (renderCellContent aspect voiceKey) ≠ "".
Proof.
  intros _ Hplain. destruct aspect as [a|]; [|done].
  rewrite renderCellContent_blocks, textContent_app.
  rewrite blockChildren_plain by (by apply Hplain || set_solver).
  intros H%append_empty_r. rewrite textContent_cons in H.
  apply append_empty_l in H. rewrite textContent_cons in H.
  apply append_empty_l in H. by apply formulaNode_text in H.
Qed.

(** ** [indexByType] on lists put together *)

(** Indexing a list put together from two is indexing both and letting the
    entries of the second override those of the first: in the own
    properties and in the prototype that an entry of type [__proto__]
    sets. *)
Theorem indexByType_app (l1 l2 : list Structure) :
  ownProperties (indexByType (l1 ++ l2))
  = ownProperties (indexByType l2) ∪ ownProperties (indexByType l1)
  ∧ prototype (indexByType (l1 ++ l2))
    = match prototype (indexByType l2) with
      | Some s => Some s
      | None => prototype (indexByType l1)
      end.
Proof.
  split.
  - apply map_eq. intros k.
    rewrite lookup_union, !indexByType_own, filter_app, last_app.
    case_decide; [done|].
    by destruct (last (filter _ l2)), (last (filter _ l1)).
  - rewrite !indexByType_prototype, filter_app, last_app.
    by destruct (last (filter _ l2)).
Qed.

(** The own keys of the index are exactly the types that occur in the list,
    [__proto__] apart (an entry of that type sets the prototype and adds
    no key), so the index has at most as many own entries as the list, and
    fewer when a type occurs twice. *)
Theorem indexByType_keys (structures : list Structure) :
  dom (ownProperties (indexByType structures))
  = list_to_set (filter (λ k, k ≠ "__proto__") (type <$> structures))
  ∧ size (ownProperties (indexByType structures)) ≤ length structures.
Proof.
  split.
  - apply set_eq. intros k.
    rewrite elem_of_dom, indexByType_own, elem_of_list_to_set,
      list_elem_of_filter.
    case_decide as Hk; split.
    + by intros [? ?].
    + by intros [? _].
    + intros [s Hs].
      apply last_Some_elem_of, list_elem_of_filter in Hs as [<- Hin].
      split; [done|]. by apply list_elem_of_fmap_2.
    + intros [_ (s & -> & Hin)%list_elem_of_fmap].
      apply last_is_Some. intros Hnil.
      eapply (filter_nil_not_elem_of (λ s0, type s0 = type s));
        [exact Hnil|reflexivity|exact Hin].
  - induction structures as [|x l IH] using rev_ind; [done|].
    rewrite indexByType_snoc, length_app. cbn [length]. unfold setProperty.
    case_decide; cbn [ownProperties]; [lia|].
    rewrite map_size_insert. destruct (_ !! _); simpl; lia.
Qed.

Lemma cell_never_blank_witness :
  ("passive" = "active" ∨ "passive" = "passive")
  ∧ plainFormulas "passive" presentSimple
  ∧ textContent (renderCellContent (Some presentSimple) "passive") ≠ "".
Proof.
  assert (Hv : "passive" = "active" ∨ "passive" = "passive") by (right; reflexivity).
  assert (Hplain : plainFormulas "passive" presentSimple).
  { intros s f Hin Hf. vm_compute in Hin.
    repeat (apply elem_of_cons in Hin as [->|Hin];
            [by (injection Hf as <-) || discriminate Hf|]).
    by apply elem_of_nil in Hin. }
  split_and!; [exact Hv|exact Hplain|].
  refine (cell_never_blank (Some presentSimple) "passive" Hv _).
  intros a [= <-]. exact Hplain.
Defined.
